(** * lrclibium: synchronised lyrics engine

    A shallow embedding of [lrclibium.py] (parser of timestamped lyric text,
    bounded recency cache, active-line locator, window selector, start-up
    path) together with the properties stated about it.

    Conventions of the embedding.
    - Python [int] is [Z]; Python [float] is an IEEE-754 binary64 value,
      represented by [spec_float] with precision 53 and maximal exponent
      1024.
    - Python [str], where the code looks into the text (lyrics, records,
      tokens), is [PyStr.str]: the list of the code points of the text.
      The character classes are those of CPython 3.11 (Unicode 14.0):
      the decimal digits for [\d], [int] and [float], the white space of
      [str.isspace] for [strip], the line boundaries of [splitlines].
      Artist, title, cache keys, queries and log messages, which the code
      only compares and concatenates, are [string].
    - Exceptions are [option] or a dedicated result type; [try]/[except]
      is a [match] on it.
    - The [OrderedDict] of the cache is an association list, oldest entry
      first. *)

From Stdlib Require Import ZArith Lia Bool List Ascii String.
From Stdlib Require Import Sorted Permutation.
From Stdlib Require Import Floats.SpecFloat.
Import ListNotations.

Local Open Scope Z_scope.

(** ** Python floats *)

Module PyFloat.

Definition float := spec_float.

Definition prec : Z := 53.
Definition emax : Z := 1024.

(** [0.0], and the [int] [0] wherever it is compared with a float. *)
Definition zero : float := S754_zero false.

Definition lt (a b : float) : bool := SFltb a b.
Definition le (a b : float) : bool := SFleb a b.
Definition eq (a b : float) : bool := SFeqb a b.
Definition add (a b : float) : float := SFadd prec emax a b.

(** Conversion of an [int] to a [float], as done by [int + float]:
    rounding to nearest even, [OverflowError] ("int too large to convert
    to float") when the rounded value is not finite. *)
Definition of_int (n : Z) : option float :=
  match binary_normalize prec emax n 0 false with
  | S754_infinity _ | S754_nan => None
  | f => Some f
  end.

Fixpoint pow10 (k : nat) : positive :=
  match k with
  | O => 1%positive
  | S k' => (10 * pow10 k')%positive
  end.

(** The float nearest to [n / 10^k], for [n >= 0]: the value of a decimal
    literal with [k] digits after the point.  Decimal to binary conversion
    is correctly rounded; a literal too large for a float gives [inf]. *)
Definition of_decimal (n : Z) (k : nat) : float :=
  match n with
  | Zpos p => SFdiv prec emax (S754_finite false p 0)
                (S754_finite false (pow10 k) 0)
  | _ => zero
  end.

Definition is_nan (f : float) : bool :=
  match f with S754_nan => true | _ => false end.

(** The float written by a small integer literal such as [10] or [-1]. *)
Definition lit (n : Z) : float := binary_normalize prec emax n 0 false.

(** The exact value of a finite float as a fraction [num / den]. *)
Definition to_fraction (f : float) : option (Z * Z) :=
  match f with
  | S754_zero _ => Some (0, 1)
  | S754_finite s m e =>
      let z := if s then Zneg m else Zpos m in
      Some (if 0 <=? e then (z * 2 ^ e, 1) else (z, 2 ^ (- e)))
  | _ => None
  end.

(** The float [f] is finite and its exact value is [p / q]. *)
Definition has_value (f : float) (p q : Z) : bool :=
  match to_fraction f with
  | Some (n, d) => n * q =? p * d
  | None => false
  end.

(** Floats that are zero, positive or [+inf]: what the parser produces. *)
Definition nonneg (f : float) : bool :=
  match f with
  | S754_zero _ | S754_finite false _ _ | S754_infinity false => true
  | _ => false
  end.

(** Floats that are no NaN and carry the sign bit [s]. *)
Definition has_sign (s : bool) (f : float) : Prop :=
  match f with
  | S754_nan => False
  | S754_zero s' | S754_infinity s' | S754_finite s' _ _ => s' = s
  end.

End PyFloat.

(** ** Python strings *)

Module PyStr.

(** A character is its code point; a text is the list of its
    characters. *)
Definition char : Type := N.
Definition str : Type := list char.

(** The character written by an ASCII character, and the text written by
    an ASCII string literal. *)
Definition ch (c : ascii) : char := N_of_ascii c.
Definition u (s : string) : str := map N_of_ascii (list_ascii_of_string s).

(** The runs of decimal digits of Unicode 14.0, each as the code point of
    its digit zero and its length: the characters of category Nd.  Within
    a run the digits 0 to 9 follow one another (the one run of fifty holds
    five such series). *)
Definition decimal_runs : list (N * N) :=
  [(48, 10); (1632, 10); (1776, 10); (1984, 10); (2406, 10); (2534, 10);
   (2662, 10); (2790, 10); (2918, 10); (3046, 10); (3174, 10); (3302, 10);
   (3430, 10); (3558, 10); (3664, 10); (3792, 10); (3872, 10); (4160, 10);
   (4240, 10); (6112, 10); (6160, 10); (6470, 10); (6608, 10); (6784, 10);
   (6800, 10); (6992, 10); (7088, 10); (7232, 10); (7248, 10); (42528, 10);
   (43216, 10); (43264, 10); (43472, 10); (43504, 10); (43600, 10);
   (44016, 10); (65296, 10); (66720, 10); (68912, 10); (69734, 10);
   (69872, 10); (69942, 10); (70096, 10); (70384, 10); (70736, 10);
   (70864, 10); (71248, 10); (71360, 10); (71472, 10); (71904, 10);
   (72016, 10); (72784, 10); (73040, 10); (73120, 10); (92768, 10);
   (92864, 10); (93008, 10); (120782, 50); (123200, 10); (123632, 10);
   (125264, 10); (130032, 10)]%N.

Definition in_run (c : char) (r : N * N) : bool :=
  ((fst r <=? c) && (c <? fst r + snd r))%N.

(** [\d] and the digits accepted by [int] and [float]. *)
Definition is_digit (c : char) : bool := existsb (in_run c) decimal_runs.

(** The value of a decimal digit. *)
Definition digit_value (c : char) : Z :=
  match find (in_run c) decimal_runs with
  | Some r => Z.of_N ((c - fst r) mod 10)
  | None => 0
  end.

(** [str.isspace], the white space [strip] removes: tab to carriage
    return, the separators 0x1c to 0x1f, the space, next line, no-break
    space, ogham space mark, en quad to hair space, line and paragraph
    separator, narrow no-break space, medium mathematical space and
    ideographic space. *)
Definition is_space (c : char) : bool :=
  (((9 <=? c) && (c <=? 13)) || ((28 <=? c) && (c <=? 31)) || (c =? 32)
   || (c =? 133) || (c =? 160) || (c =? 5760)
   || ((8192 <=? c) && (c <=? 8202)) || (c =? 8232) || (c =? 8233)
   || (c =? 8239) || (c =? 8287) || (c =? 12288))%N.

(** Line boundaries of [str.splitlines]: line feed, vertical tab, form
    feed, carriage return, the separators 0x1c to 0x1e, next line, line
    separator and paragraph separator. *)
Definition is_linebreak (c : char) : bool :=
  (((10 <=? c) && (c <=? 13)) || ((28 <=? c) && (c <=? 30))
   || (c =? 133) || (c =? 8232) || (c =? 8233))%N.

Definition is_cr (c : char) : bool := (c =? 13)%N.
Definition is_lf (c : char) : bool := (c =? 10)%N.

(** [s.splitlines()]: the lines of [s] without their terminators; a
    carriage return followed by a line feed is one terminator, and a
    terminator at the very end opens no further line. *)
Fixpoint splitlines (s : str) : list str :=
  match s with
  | [] => []
  | c :: s' =>
      if is_linebreak c then
        match s' with
        | c' :: s'' =>
            if is_cr c && is_lf c' then [] :: splitlines s''
            else [] :: splitlines s'
        | [] => [[]]
        end
      else
        match splitlines_head s' with
        | (l, ls) => (c :: l) :: ls
        end
  end
with splitlines_head (s : str) : str * list str :=
  match s with
  | [] => ([], [])
  | c :: s' =>
      if is_linebreak c then
        match s' with
        | c' :: s'' =>
            if is_cr c && is_lf c' then ([], splitlines s'')
            else ([], splitlines s')
        | [] => ([], [])
        end
      else
        match splitlines_head s' with
        | (l, ls) => (c :: l, ls)
        end
  end.

Fixpoint lstrip (s : str) : str :=
  match s with
  | c :: s' => if is_space c then lstrip s' else s
  | [] => []
  end.

Fixpoint rstrip (s : str) : str :=
  match s with
  | c :: s' =>
      match rstrip s' with
      | [] => if is_space c then [] else [c]
      | r => c :: r
      end
  | [] => []
  end.

(** [s.strip()] *)
Definition strip (s : str) : str := rstrip (lstrip s).

(** [s[n:]] *)
Fixpoint drop (n : nat) (s : str) : str :=
  match n, s with
  | S n', _ :: s' => drop n' s'
  | _, _ => s
  end.

(** [s.startswith(p)] *)
Fixpoint startswith (p s : str) : bool :=
  match p, s with
  | [], _ => true
  | a :: p', b :: s' => (a =? b)%N && startswith p' s'
  | _ :: _, [] => false
  end.

(** The longest prefix of digits, and what follows it. *)
Fixpoint span_digits (s : str) : str * str :=
  match s with
  | c :: s' =>
      if is_digit c then
        let (d, r) := span_digits s' in (c :: d, r)
      else ([], s)
  | [] => ([], [])
  end.

Fixpoint all_digits (s : str) : bool :=
  match s with
  | c :: s' => is_digit c && all_digits s'
  | [] => true
  end.

(** The number written by a string of digits, most significant first. *)
Fixpoint digits_value_from (acc : Z) (s : str) : Z :=
  match s with
  | c :: s' => digits_value_from (10 * acc + digit_value c) s'
  | [] => acc
  end.

Definition digits_value (s : str) : Z := digits_value_from 0 s.

(** CPython's default limit on the number of digits [int] converts. *)
Definition int_max_str_digits : nat := 4300.

(** [int(s)] for a string of digits; [None] is [ValueError]. *)
Definition int (s : str) : option Z :=
  if all_digits s && negb (List.length s =? 0)%nat
     && (List.length s <=? int_max_str_digits)%nat
  then Some (digits_value s) else None.

(** [float(s)] for a string of the form digits, point, digits, which is
    the only form group 2 of the timestamp pattern can take; [None] is
    [ValueError]. *)
Definition float (s : str) : option PyFloat.float :=
  let (ip, r) := span_digits s in
  match r with
  | c :: fp =>
      if (c =? ch ".")%N && all_digits fp
         && negb (List.length ip =? 0)%nat
         && negb (List.length fp =? 0)%nat
      then Some (PyFloat.of_decimal (digits_value (ip ++ fp)) (List.length fp))
      else None
  | [] => None
  end.

End PyStr.

(** ** The timestamp pattern

    [TIMESTAMP_RE = re.compile(r"\[(\d+):(\d+\.\d+)\]")].  The three
    repetitions are greedy and each is followed by a character that is not
    a digit, so the only way to match at a position is to take every
    maximal run of digits whole: backtracking never finds another match. *)

Module TimestampRe.

Import PyStr.
Local Open Scope nat_scope.

(** A match object: [m.start()], [m.end()], [m.group(1)], [m.group(2)]. *)
Record rematch := Match {
  m_start : nat;
  m_end : nat;
  group1 : str;
  group2 : str
}.

Definition expect (c : char) (s : str) : option str :=
  match s with
  | c' :: s' => if (c =? c')%N then Some s' else None
  | [] => None
  end.

Definition digits1 (s : str) : option (str * str) :=
  match span_digits s with
  | ([], _) => None
  | (d, r) => Some (d, r)
  end.

(** The match of the pattern at the very start of [s], as the two groups
    and the number of characters matched. *)
Definition match_here (s : str) : option (str * str * nat) :=
  match expect (ch "[") s with
  | None => None
  | Some s1 =>
  match digits1 s1 with
  | None => None
  | Some (mins, s2) =>
  match expect (ch ":") s2 with
  | None => None
  | Some s3 =>
  match digits1 s3 with
  | None => None
  | Some (ip, s4) =>
  match expect (ch ".") s4 with
  | None => None
  | Some s5 =>
  match digits1 s5 with
  | None => None
  | Some (fp, s6) =>
  match expect (ch "]") s6 with
  | None => None
  | Some _ =>
      Some (mins, ip ++ ch "." :: fp,
            List.length mins + List.length ip + List.length fp + 4)
  end end end end end end end.

(** The scan of [finditer]: [pos] is the index of the first character of
    [s] in the whole line, and the next [skip] characters belong to the
    match found last, where no new match may start. *)
Fixpoint finditer_from (skip pos : nat) (s : str) : list rematch :=
  match s with
  | [] => []
  | _ :: s' =>
      match skip with
      | S k => finditer_from k (S pos) s'
      | O =>
          match match_here s with
          | Some (g1, g2, len) =>
              Match pos (pos + len) g1 g2 :: finditer_from (len - 1) (S pos) s'
          | None => finditer_from 0 (S pos) s'
          end
      end
  end.

(** [list(TIMESTAMP_RE.finditer(line))] *)
Definition finditer (line : str) : list rematch := finditer_from 0 0 line.

End TimestampRe.

(** ** Lyrics: parsing and the cache *)

Definition lyric_line : Type := PyFloat.float * PyStr.str.

Module LyricsManager.

Import PyStr TimestampRe.
Local Open Scope string_scope.

(** The cross mark of the two messages, U+274C. *)
Definition cross_mark : char := 10060%N.

(** ["❌ Lyrics not found"] and ["❌ No parseable lyrics found"] *)
Definition not_found_text : str := cross_mark :: u " Lyrics not found".
Definition no_parse_text : str := cross_mark :: u " No parseable lyrics found".

(** [[(0, "❌ Lyrics not found")]] *)
Definition not_found : list lyric_line := [(PyFloat.zero, not_found_text)].

(** The body of the [try] in [parse_lrc]: [None] is an exception raised by
    [int], by [float] or by the addition of an [int] too large for a
    float, which the [except] clause turns into [continue]. *)
Definition token_offset (m : rematch) : option PyFloat.float :=
  match PyStr.int (group1 m) with
  | None => None
  | Some mins =>
  match PyStr.float (group2 m) with
  | None => None
  | Some secs =>
  match PyFloat.of_int (mins * 60) with
  | None => None
  | Some f => Some (PyFloat.add f secs)
  end end end.

(** The inner loop over the matches of one record. *)
Fixpoint emit (lyric : str) (matches : list rematch) : list lyric_line :=
  match matches with
  | [] => []
  | m :: ms =>
      match token_offset m with
      | Some off => (off, lyric) :: emit lyric ms
      | None => emit lyric ms
      end
  end.

(** [line[matches[-1].end():].strip()] *)
Definition lyric_of (line : str) (matches : list rematch) : str :=
  strip (drop (m_end (last matches (Match 0 0 [] []))) line).

(** What one iteration of the outer loop appends to [lines]. *)
Definition record_lines (line : str) : list lyric_line :=
  match finditer line with
  | [] => []
  | matches => emit (lyric_of line matches) matches
  end.

(** [lines] when the outer loop is over. *)
Definition collected (text : str) : list lyric_line :=
  flat_map record_lines (splitlines text).

(** [sorted(lines, key=lambda x: x[0])]: a stable sort that compares keys
    with [<] only.  Each line is put before the first line already placed
    whose key is not smaller than its own. *)
Fixpoint insert (x : lyric_line) (l : list lyric_line) : list lyric_line :=
  match l with
  | [] => [x]
  | y :: l' =>
      if PyFloat.lt (fst y) (fst x) then y :: insert x l' else x :: y :: l'
  end.

Definition sorted (l : list lyric_line) : list lyric_line :=
  fold_right insert [] l.

Definition parse_lrc (text : str) : list lyric_line :=
  match collected text with
  | [] => [(PyFloat.zero, no_parse_text)]
  | lines => sorted lines
  end.

(** *** The cache: an [OrderedDict], oldest entry first *)

Definition ordered_dict : Type := list (string * list lyric_line).

(** [self.cache[key]]; [None] when [key not in self.cache]. *)
Fixpoint getitem (key : string) (d : ordered_dict) : option (list lyric_line) :=
  match d with
  | [] => None
  | (k, v) :: d' => if String.eqb key k then Some v else getitem key d'
  end.

Fixpoint delitem (key : string) (d : ordered_dict) : ordered_dict :=
  match d with
  | [] => []
  | (k, v) :: d' => if String.eqb key k then d' else (k, v) :: delitem key d'
  end.

(** [self.cache.move_to_end(key)], for a key that is present. *)
Definition move_to_end (key : string) (d : ordered_dict) : ordered_dict :=
  match getitem key d with
  | Some v => (delitem key d ++ [(key, v)])%list
  | None => d
  end.

(** [self.cache[key] = v]: a present key keeps its place, a new key goes
    to the end. *)
Fixpoint setitem (key : string) (v : list lyric_line) (d : ordered_dict)
  : ordered_dict :=
  match d with
  | [] => [(key, v)]
  | (k, w) :: d' =>
      if String.eqb key k then (k, v) :: d' else (k, w) :: setitem key v d'
  end.

(** [self.cache.popitem(last=False)] *)
Definition popitem_first (d : ordered_dict) : ordered_dict := tl d.

Definition keys (d : ordered_dict) : list string := map fst d.

Record manager := Manager {
  cache : ordered_dict;
  cache_size : Z
}.

(** [LyricsManager(cache_size)] *)
Definition init (cache_size : Z) : manager := Manager [] cache_size.

(** *** Retrieval *)

(** One element of the JSON array answered by the search API: an object,
    of which the code reads the two lyric fields ([None] for a missing or
    null field), or something that is not an object. *)
Inductive track :=
| Track (syncedLyrics plainLyrics : option str)
| NotATrack.

(** What the request of [_fetch_lyrics] does: it raises (connection error,
    the five-second timeout, an error status, a body that is not JSON), or
    it answers a JSON array. *)
Inductive reply :=
| NetworkError
| Timeout
| BadStatus
| Answer (data : list track).

(** What the functions do to the outside world. *)
Inductive event :=
| HttpGet (query : string)
| LogError (msg : string).

Definition truthy (o : option string) : option string :=
  match o with
  | Some EmptyString | None => None
  | Some s => Some s
  end.

(** The same for a text: an absent or empty text counts as false. *)
Definition truthy_text (o : option str) : option str :=
  match o with
  | Some [] | None => None
  | Some s => Some s
  end.

(** [track.get("syncedLyrics") or track.get("plainLyrics") or "❌ ..."] *)
Definition lyrics_text_of (synced plain : option str) : str :=
  match truthy_text synced with
  | Some s => s
  | None =>
      match truthy_text plain with
      | Some s => s
      | None => not_found_text
      end
  end.

(** [_fetch_lyrics]; the result [None] is an exception that leaves the
    function.  The download of a text given by URL always fails in the
    code (the attribute [text] is read from a coroutine that was not
    awaited), which its own [except] turns into the not-found text. *)
Definition _fetch_lyrics (artist title : string) (r : reply)
  : list event * option (list lyric_line) :=
  let query := artist ++ " " ++ title in
  let failed :=
    ([HttpGet query;
      LogError ("Error fetching lyrics for " ++ artist ++ " - " ++ title)],
     Some not_found) in
  match r with
  | NetworkError | Timeout | BadStatus => failed
  | Answer [] => ([HttpGet query], Some not_found)
  | Answer (NotATrack :: _) => ([HttpGet query], None)
  | Answer (Track synced plain :: _) =>
      let lyrics_text := lyrics_text_of synced plain in
      if startswith (u "http") lyrics_text then
        ([HttpGet query;
          LogError ("Failed to download lyrics from URL for "
                    ++ artist ++ " - " ++ title)],
         Some (parse_lrc not_found_text))
      else ([HttpGet query], Some (parse_lrc lyrics_text))
  end.

Definition cache_key (artist title : string) : string :=
  artist ++ " - " ++ title.

(** [get_lyrics]: the manager afterwards, what happened outside, and the
    lines returned.  [r] is what the network would answer if asked. *)
Definition get_lyrics (self : manager) (artist title : string) (r : reply)
  : manager * list event * list lyric_line :=
  let key := cache_key artist title in
  match getitem key (cache self) with
  | Some lyrics =>
      (Manager (move_to_end key (cache self)) (cache_size self), [], lyrics)
  | None =>
      match _fetch_lyrics artist title r with
      | (ev, None) =>
          (self,
           (ev ++ [LogError ("Failed to fetch lyrics for "
                             ++ artist ++ " - " ++ title)])%list,
           not_found)
      | (ev, Some lyrics) =>
          let d := setitem key lyrics (cache self) in
          let d := if Z.of_nat (List.length d) >? cache_size self
                   then popitem_first d else d in
          (Manager d (cache_size self), ev, lyrics)
      end
  end.

End LyricsManager.

(** ** The window *)

Module WindowManager.

(** [WindowManager(size).get_indices(current_index, total_lines)] *)
Definition get_indices (size current_index total_lines : Z) : Z * Z :=
  if total_lines <=? size then (0, total_lines)
  else
    let half := size / 2 in
    let top := Z.max 0 (current_index - half) in
    let bottom := Z.min (top + size) total_lines in
    let top := Z.max 0 (bottom - size) in
    (top, bottom).

End WindowManager.

(** ** Rendering: the active line and the lines shown *)

(** The [for] loop of [render_panel] from index [i] on, over the lines
    still ahead: [Some i] is the [break], [None] the exhausted range. *)
Fixpoint first_active (i : Z) (lyrics : list lyric_line)
    (current_time : PyFloat.float) : option Z :=
  match lyrics with
  | a :: (b :: _) as rest =>
      if PyFloat.le (fst a) current_time && PyFloat.lt current_time (fst b)
      then Some i
      else first_active (i + 1) rest current_time
  | _ => None
  end.

(** [idx] after the [for]/[else] of [render_panel]. *)
Definition active_index (lyrics : list lyric_line)
    (current_time : PyFloat.float) : Z :=
  match first_active 0 lyrics current_time with
  | Some i => i
  | None => Z.of_nat (List.length lyrics) - 1
  end.

Inductive style := Current | Near | Dim.

Definition style_of (i idx : Z) : style :=
  if i =? idx then Current
  else if Z.abs (i - idx) =? 1 then Near
  else Dim.

(** [range(start, stop)] *)
Definition range (start stop : Z) : list Z :=
  map (fun k => start + Z.of_nat k) (seq 0 (Z.to_nat (stop - start))).

Record panel := Panel {
  panel_idx : Z;
  panel_window : Z * Z;
  panel_content : list (style * PyStr.str);
  panel_title : string
}.

(** [render_panel]; the window never leaves the list, so every [lyrics[i]]
    is a plain lookup. *)
Definition render_panel (lyrics : list lyric_line)
    (current_time : PyFloat.float) (artist title : string) (size : Z)
  : panel :=
  let idx := active_index lyrics current_time in
  let (start, stop) :=
    WindowManager.get_indices size idx (Z.of_nat (List.length lyrics)) in
  let content :=
    flat_map (fun i =>
      match nth_error lyrics (Z.to_nat i) with
      | Some (_, line) => [(style_of i idx, line)]
      | None => []
      end) (range start stop) in
  Panel idx (start, stop) content (artist ++ " - " ++ title)%string.

(** ** Players *)

(** What [playerctl position -p p] gives in [choose_player]: the call or
    the conversion of its output raises, the output is empty, or it is a
    number. *)
Inductive probe :=
| ProbeRaises
| ProbeEmpty
| ProbePosition (pos : PyFloat.float).

(** The players of the system: the answer of [playerctl -l] ([None] when
    the call raises), each with the answer to the probe of its position. *)
Definition players : Type := option (list (string * probe)).

Fixpoint first_playing (ps : list (string * probe)) : option string :=
  match ps with
  | [] => None
  | (p, ProbePosition pos) :: ps' =>
      if PyFloat.le PyFloat.zero pos then Some p else first_playing ps'
  | (_, _) :: ps' => first_playing ps'
  end.

Definition choose_player (forced : option string) (env : players)
  : option string :=
  match LyricsManager.truthy forced with
  | Some p => Some p
  | None =>
      match env with
      | None => None
      | Some ps => first_playing ps
      end
  end.

(** ** The synchronisation loop *)

Module RunLyrics.

Import LyricsManager.

(** The local variables of [run_lyrics] that live across iterations. *)
Record loop_state := LoopState {
  player_name : string;
  lyrics_mgr : manager;
  window_size : Z;
  last_track : option string;
  lyrics_lines : list lyric_line
}.

(** The state in which [run_lyrics(player_name, window, cache_size)]
    enters its [while True]. *)
Definition start (player_name : string) (window cache_size : Z) : loop_state :=
  LoopState player_name (LyricsManager.init cache_size) window None not_found.

(** What the player and the network answer during one iteration. *)
Record answers := Answers {
  ans_artist : option string;
  ans_title : option string;
  ans_reply : reply;
  ans_position : PyFloat.float
}.

(** One iteration of the loop: the state afterwards, what happened
    outside, and the panel shown ([None] when the iteration ends at the
    first [continue]). *)
Definition tick (st : loop_state) (a : answers)
  : loop_state * list event * option panel :=
  match truthy (ans_artist a), truthy (ans_title a) with
  | Some artist, Some title =>
      let track_key := cache_key artist title in
      let changed :=
        match last_track st with
        | Some k => negb (String.eqb track_key k)
        | None => true
        end in
      let '(mgr, ev, lines) :=
        if changed then
          let '(mgr, ev, new_lyrics) :=
            get_lyrics (lyrics_mgr st) artist title (ans_reply a) in
          (mgr, ev,
           match new_lyrics with [] => lyrics_lines st | _ => new_lyrics end)
        else (lyrics_mgr st, [], lyrics_lines st) in
      (LoopState (player_name st) mgr (window_size st) (Some track_key) lines,
       ev,
       Some (render_panel lines (ans_position a) artist title (window_size st)))
  | _, _ => (st, [], None)
  end.

(** The HTTP requests among the events. *)
Definition requests (ev : list event) : list string :=
  flat_map (fun e => match e with HttpGet q => [q] | LogError _ => [] end) ev.

End RunLyrics.

(** ** Start-up *)

(** The parsed command line: [--player], [--window], [--cache-size]. *)
Record args := Args {
  arg_player : option string;
  arg_window : Z;
  arg_cache_size : Z
}.

Definition default_args : args := Args None 10 50.

(** How [main] ends: it prints that no player is active and returns, or it
    calls [run_lyrics], which enters the loop in the given state. *)
Inductive outcome :=
| NoActivePlayer
| Loop (st : RunLyrics.loop_state).

Definition main (a : args) (env : players) : outcome :=
  match LyricsManager.truthy (choose_player (arg_player a) env) with
  | None => NoActivePlayer
  | Some player_name =>
      Loop (RunLyrics.start player_name (arg_window a) (arg_cache_size a))
  end.

(** ** Vocabulary of the properties *)

Definition offset_le (a b : lyric_line) : Prop :=
  PyFloat.le (fst a) (fst b) = true.

(** A sequence sorted non-decreasing by offset: every line is at most the
    line after it. *)
Definition non_decreasing (lyrics : list lyric_line) : Prop :=
  Sorted offset_le lyrics.

(** The offset of the line at index [i]. *)
Definition offset_at (lyrics : list lyric_line) (i : nat) : PyFloat.float :=
  fst (nth i lyrics (S754_nan, [])).

(** The line at index [i] has been reached at time [t] and is not at the
    same offset as the line after it, if there is one. *)
Definition reached (lyrics : list lyric_line) (t : PyFloat.float) (i : nat)
  : Prop :=
  PyFloat.le (offset_at lyrics i) t = true /\
  (S i < List.length lyrics ->
   PyFloat.lt (offset_at lyrics i) (offset_at lyrics (S i)) = true)%nat.

(** The sequence of the locator examples: [(0, a), (10, b), (20, c)]. *)
Definition three_lines : list lyric_line :=
  [(PyFloat.lit 0, PyStr.u "a"); (PyFloat.lit 10, PyStr.u "b");
   (PyFloat.lit 20, PyStr.u "c")].

(** The lines of a sequence that are at offset [x], in their order. *)
Definition at_offset (x : PyFloat.float) (l : list lyric_line)
  : list lyric_line :=
  filter (fun line => PyFloat.eq (fst line) x) l.

Definition not_nan (line : lyric_line) : Prop :=
  PyFloat.is_nan (fst line) = false.

(** The text of a token with the groups [a] and [b]: an opening bracket,
    [a], a colon, [b], a closing bracket. *)
Definition bracketed (a b : PyStr.str) : PyStr.str :=
  PyStr.ch "[" :: a ++ PyStr.ch ":" :: b ++ [PyStr.ch "]"].

(** Seconds with the digits [ip] before and [fp] after the point. *)
Definition seconds (ip fp : PyStr.str) : PyStr.str :=
  ip ++ PyStr.ch "." :: fp.

(** The groups of a match of the timestamp pattern: digits, and digits
    around a point. *)
Definition well_formed (m : TimestampRe.rematch) : Prop :=
  PyStr.all_digits (TimestampRe.group1 m) = true /\
  TimestampRe.group1 m <> [] /\
  exists ip fp : PyStr.str,
    TimestampRe.group2 m = seconds ip fp /\
    PyStr.all_digits ip = true /\ ip <> [] /\
    PyStr.all_digits fp = true /\ fp <> [].

(** A token whose minutes the code can convert: [int] accepts the number
    of digits, and sixty times the minutes is within the range of a
    float. *)
Definition in_range (m : TimestampRe.rematch) : Prop :=
  (List.length (TimestampRe.group1 m) <= PyStr.int_max_str_digits)%nat /\
  PyFloat.of_int (PyStr.digits_value (TimestampRe.group1 m) * 60) <> None.

(** [off] is minutes times sixty plus seconds, both read from the token. *)
Definition minutes_seconds (m : TimestampRe.rematch) (off : PyFloat.float)
  : Prop :=
  exists (mins : Z) (secs f : PyFloat.float),
    PyStr.int (TimestampRe.group1 m) = Some mins /\
    PyStr.float (TimestampRe.group2 m) = Some secs /\
    PyFloat.of_int (mins * 60) = Some f /\
    off = PyFloat.add f secs.

(** The text after the last token of a record, trimmed. *)
Definition trailing_text (line : PyStr.str) : PyStr.str :=
  PyStr.strip
    (PyStr.drop
       (TimestampRe.m_end
          (last (TimestampRe.finditer line) (TimestampRe.Match 0 0 [] [])))
       line).

(** A record of two tokens, the first with a minutes field of four
    hundred nines. *)
Definition huge_minutes_record : PyStr.str :=
  bracketed (repeat (PyStr.ch "9") 400) (PyStr.u "01.0")
  ++ PyStr.u "[0:05.0]hello".

(** A match seen [p] characters further to the right. *)
Definition shift (p : nat) (m : TimestampRe.rematch) : TimestampRe.rematch :=
  TimestampRe.Match (p + TimestampRe.m_start m) (p + TimestampRe.m_end m)
    (TimestampRe.group1 m) (TimestampRe.group2 m).

Fixpoint no_bracket (s : PyStr.str) : bool :=
  match s with
  | c :: s' => negb (c =? PyStr.ch "[")%N && no_bracket s'
  | [] => true
  end.

(** The tokens of a record that the [try] converts. *)
Definition converts (m : TimestampRe.rematch) : bool :=
  match LyricsManager.token_offset m with Some _ => true | None => false end.

(** The digits zero and two in Arabic-Indic script. *)
Definition arabic_02 : PyStr.str := [1632; 1634]%N.

(** The ideographic space, U+3000, and the line separator, U+2028. *)
Definition ideographic_space : PyStr.char := 12288%N.
Definition line_separator : PyStr.char := 8232%N.

(** A record with a letter outside ASCII on each side of its token. *)
Definition accented_record : PyStr.str :=
  233%N :: PyStr.u "[0:01.0]" ++ 241%N :: PyStr.u " x".

(** Two records separated by a line separator. *)
Definition separated_records : PyStr.str :=
  PyStr.u "[0:01.0]a" ++ line_separator :: PyStr.u "[0:02.0]b".

(** Two records at the same offset and a third before them. *)
Definition tied_records : PyStr.str :=
  PyStr.u "[0:02.0]first" ++ 10%N :: PyStr.u "[0:02.00]second"
  ++ 10%N :: PyStr.u "[0:01.5]early".

(** The retrieval fails: the request raises or the answer is empty. *)
Definition retrieval_fails (r : LyricsManager.reply) : Prop :=
  r = LyricsManager.NetworkError \/ r = LyricsManager.Timeout \/
  r = LyricsManager.BadStatus \/ r = LyricsManager.Answer [].

(** One call of [get_lyrics]: artist, title, and what the network would
    answer. *)
Definition call : Type := string * string * LyricsManager.reply.

Definition call_key (c : call) : string :=
  let '(artist, title, _) := c in LyricsManager.cache_key artist title.

(** The manager after a call. *)
Definition step (self : LyricsManager.manager) (c : call)
  : LyricsManager.manager :=
  let '(artist, title, r) := c in
  fst (fst (LyricsManager.get_lyrics self artist title r)).

(** The manager after a sequence of calls. *)
Definition run (self : LyricsManager.manager) (calls : list call)
  : LyricsManager.manager :=
  fold_left step calls self.

(** The key a call uses in the cache: the key it finds, or the key under
    which it stores what was retrieved; none when retrieval raises. *)
Definition used (self : LyricsManager.manager) (c : call) : option string :=
  let '(artist, title, r) := c in
  match LyricsManager.getitem (call_key c) (LyricsManager.cache self) with
  | Some _ => Some (call_key c)
  | None =>
      match snd (LyricsManager._fetch_lyrics artist title r) with
      | Some _ => Some (call_key c)
      | None => None
      end
  end.

(** The keys used by a sequence of calls, the most recent first, in front
    of the uses [h] made before. *)
Fixpoint history (h : list string) (self : LyricsManager.manager)
    (calls : list call) : list string :=
  match calls with
  | [] => h
  | c :: calls' =>
      history (match used self c with Some k => k :: h | None => h end)
              (step self c) calls'
  end.

(** How many uses ago a key was last used: 0 for the key used last. *)
Fixpoint rank (k : string) (h : list string) : nat :=
  match h with
  | [] => 0
  | x :: h' => if String.eqb k x then 0 else S (rank k h')
  end.

(** [k1] was last used before [k2] was. *)
Definition older (h : list string) (k1 k2 : string) : Prop :=
  (rank k2 h < rank k1 h)%nat.

(** The cache invariant after the uses [h]: the keys are distinct, ordered
    from the least to the most recently used, all used before, and no
    more than the capacity. *)
Definition cache_inv (h : list string) (self : LyricsManager.manager) : Prop :=
  NoDup (LyricsManager.keys (LyricsManager.cache self)) /\
  StronglySorted (older h) (LyricsManager.keys (LyricsManager.cache self)) /\
  Forall (fun k => In k h) (LyricsManager.keys (LyricsManager.cache self)) /\
  Z.of_nat (List.length (LyricsManager.cache self))
  <= LyricsManager.cache_size self.

(** The events of a tick, and the state after it. *)
Definition tick_events (st : RunLyrics.loop_state) (a : RunLyrics.answers)
  : list LyricsManager.event := snd (fst (RunLyrics.tick st a)).

Definition tick_state (st : RunLyrics.loop_state) (a : RunLyrics.answers)
  : RunLyrics.loop_state := fst (fst (RunLyrics.tick st a)).

(** Three calls on a cache of capacity one: a song is stored, found
    again, and then another song is stored. *)
Definition song_a : call := ("a", "x", LyricsManager.Answer [])%string.
Definition song_b : call := ("b", "y", LyricsManager.Answer [])%string.
Definition song_c : call := ("c", "z", LyricsManager.Answer [])%string.

(** The text of the line at index [i]. *)
Definition text_at (lyrics : list lyric_line) (i : Z) : PyStr.str :=
  snd (nth (Z.to_nat i) lyrics (S754_nan, [])).

(** The first, the last character of a text is white space. *)
Definition starts_with_space (s : PyStr.str) : bool :=
  match s with
  | c :: _ => PyStr.is_space c
  | [] => false
  end.

Fixpoint ends_with_space (s : PyStr.str) : bool :=
  match s with
  | [] => false
  | [c] => PyStr.is_space c
  | _ :: s' => ends_with_space s'
  end.

(** Every character of the text satisfies [p]. *)
Fixpoint forall_chars (p : PyStr.char -> bool) (s : PyStr.str) : bool :=
  match s with
  | c :: s' => p c && forall_chars p s'
  | [] => true
  end.

Definition no_linebreak (s : PyStr.str) : bool :=
  forall_chars (fun c => negb (PyStr.is_linebreak c)) s.

(** The text of a token: the characters a match covers. *)
Definition token_text (m : TimestampRe.rematch) : PyStr.str :=
  bracketed (TimestampRe.group1 m) (TimestampRe.group2 m).

(** A match lies at its place in the line: the line is some text, the
    token, and the rest, and the match starts and ends where the token
    does. *)
Definition occurs_in (line : PyStr.str) (m : TimestampRe.rematch) : Prop :=
  exists pre rest : PyStr.str,
    line = pre ++ token_text m ++ rest /\
    TimestampRe.m_start m = List.length pre /\
    TimestampRe.m_end m = (List.length pre + List.length (token_text m))%nat.

(** The line feed, the carriage return, and a text that starts with a
    line feed. *)
Definition lf : PyStr.char := 10%N.
Definition cr : PyStr.char := 13%N.

Definition starts_with_lf (s : PyStr.str) : bool :=
  match s with
  | c :: _ => PyStr.is_lf c
  | [] => false
  end.

(** The state of the loop after the iterations answered by [answers]. *)
Definition run_ticks (st : RunLyrics.loop_state)
    (answers : list RunLyrics.answers) : RunLyrics.loop_state :=
  fold_left tick_state answers st.

(** The panel a tick shows, if it shows one. *)
Definition tick_panel (st : RunLyrics.loop_state) (a : RunLyrics.answers)
  : option panel := snd (RunLyrics.tick st a).

(** No entry of the cache holds an empty sequence. *)
Definition no_empty_entry (d : LyricsManager.ordered_dict) : Prop :=
  Forall (fun e => snd e <> []) d.

(** The probe of a player shows no position at or after zero. *)
Definition not_playing (e : string * probe) : Prop :=
  match snd e with
  | ProbePosition pos => PyFloat.le PyFloat.zero pos = false
  | _ => True
  end.

(** What a player showing a song five seconds in, and a network that
    knows this song, answer. *)
Definition song_answers : RunLyrics.answers :=
  RunLyrics.Answers (Some "a"%string) (Some "x"%string)
    (LyricsManager.Answer
       [LyricsManager.Track (Some (PyStr.u "[0:01.0]la")) None])
    (PyFloat.lit 5).

Definition enters_loop (o : outcome) : bool :=
  match o with Loop _ => true | NoActivePlayer => false end.

(** * Properties *)

(** ** Facts about floats *)

Module PyFloatFacts.

Import PyFloat.

Ltac cmp_cases :=
  repeat match goal with
  | |- context [Z.compare ?a ?b] => destruct (Z.compare_spec a b)
  | H : context [Z.compare ?a ?b] |- _ => destruct (Z.compare_spec a b)
  | |- context [Pos.compare ?a ?b] => destruct (Pos.compare_spec a b)
  | H : context [Pos.compare ?a ?b] |- _ => destruct (Pos.compare_spec a b)
  end.

Ltac float_order :=
  unfold le, lt, eq, SFleb, SFltb, SFeqb, SFcompare, is_nan;
  repeat match goal with
  | f : float |- _ => destruct f as [[]|[]| |[] ? ?]
  | f : spec_float |- _ => destruct f as [[]|[]| |[] ? ?]
  end;
  intros; simpl in *; try congruence;
  rewrite ?Pos.compare_cont_spec in *; simpl in *;
  cmp_cases; simpl in *; subst; try congruence; try lia.

Lemma le_refl (a : float) : is_nan a = false -> le a a = true.
Proof. float_order. Qed.

Lemma le_trans (a b c : float) :
  le a b = true -> le b c = true -> le a c = true.
Proof. float_order. Qed.

Lemma lt_le (a b : float) : lt a b = true -> le a b = true.
Proof. float_order. Qed.

Lemma le_lt_trans (a b c : float) :
  le a b = true -> lt b c = true -> lt a c = true.
Proof. float_order. Qed.

Lemma lt_le_trans (a b c : float) :
  lt a b = true -> le b c = true -> lt a c = true.
Proof. float_order. Qed.

Lemma lt_irrefl (a : float) : lt a a = false.
Proof. float_order. Qed.

Lemma le_not_lt (a b : float) : le a b = true -> lt b a = false.
Proof. float_order. Qed.

Lemma not_lt_le (a b : float) :
  is_nan a = false -> is_nan b = false -> lt b a = false -> le a b = true.
Proof. float_order. Qed.

Lemma le_not_nan (a b : float) :
  le a b = true -> is_nan a = false /\ is_nan b = false.
Proof. float_order; auto. Qed.

Lemma eq_le (a b : float) : eq a b = true -> le a b = true /\ le b a = true.
Proof. float_order; auto. Qed.

Lemma le_antisym (a b : float) :
  le a b = true -> le b a = true -> eq a b = true.
Proof. float_order. Qed.

Lemma nonneg_not_nan (f : float) : nonneg f = true -> is_nan f = false.
Proof. destruct f as [|[]| |[]]; simpl; congruence. Qed.

(** The floats named in the properties are the numbers they stand for:
    [lit n] is [n], and the seconds ["01.0"] and ["1.5"] are 1 and 3/2. *)
Example float_values :
  has_value (lit 0) 0 1 = true /\ has_value (lit 1) 1 1 = true /\
  has_value (lit 2) 2 1 = true /\ has_value (lit 5) 5 1 = true /\
  has_value (lit (-1)) (-1) 1 = true /\ has_value (lit 10) 10 1 = true /\
  has_value (lit 20) 20 1 = true /\ has_value (lit 25) 25 1 = true /\
  of_decimal 10 1 = lit 1 /\ has_value (of_decimal 15 1) 3 2 = true.
Proof. repeat split; reflexivity. Qed.

(** *** Conversions and sums never yield a NaN or a negative value *)

Lemma has_sign_nonneg (f : float) : has_sign false f -> nonneg f = true.
Proof. destruct f as [[]|[]| |[]]; simpl; congruence || tauto. Qed.

Lemma iter_pos_inv {A : Type} (P : A -> Prop) (f : A -> A) :
  (forall x, P x -> P (f x)) ->
  forall n x, P x -> P (iter_pos f n x).
Proof.
  intros Hf n. induction n as [n IH|n IH|]; intros x Hx; simpl; auto.
Qed.

Lemma shr_1_nonneg (mrs : shr_record) :
  0 <= shr_m mrs -> 0 <= shr_m (shr_1 mrs).
Proof.
  destruct mrs as [m r s]. simpl.
  destruct m as [|[p|p|]|[p|p|]]; simpl; lia.
Qed.

Lemma shr_fexp_nonneg (m e : Z) (l : location) :
  0 <= m -> 0 <= shr_m (fst (shr_fexp prec emax m e l)).
Proof.
  intros Hm. unfold shr_fexp, shr.
  assert (H0 : 0 <= shr_m (shr_record_of_loc m l))
    by (destruct l as [|[]]; simpl; exact Hm).
  destruct (fexp prec emax (Zdigits2 m + e) - e); simpl; auto.
  apply (iter_pos_inv (fun r => 0 <= shr_m r)); auto using shr_1_nonneg.
Qed.

Lemma round_nearest_even_nonneg (m : Z) (l : location) :
  0 <= m -> 0 <= round_nearest_even m l.
Proof.
  intros Hm. destruct l as [|[]]; simpl; try lia.
  destruct (Z.even m); lia.
Qed.

Lemma binary_round_aux_sign (s : bool) (m e : Z) (l : location) :
  0 <= m -> has_sign s (binary_round_aux prec emax s m e l).
Proof.
  intros Hm. unfold binary_round_aux.
  pose proof (shr_fexp_nonneg m e l Hm) as H1.
  destruct (shr_fexp prec emax m e l) as [mrs1 e1]. simpl in H1.
  pose proof (shr_fexp_nonneg _ e1 loc_Exact
                (round_nearest_even_nonneg _ (loc_of_shr_record mrs1) H1)) as H2.
  destruct (shr_fexp prec emax _ e1 loc_Exact) as [mrs2 e2]. simpl in H2.
  destruct (shr_m mrs2) as [|q|q]; simpl; try reflexivity; try lia.
  destruct (_ <=? _); simpl; reflexivity.
Qed.

Lemma binary_round_sign (s : bool) (m : positive) (e : Z) :
  has_sign s (binary_round prec emax s m e).
Proof.
  unfold binary_round.
  destruct (shl_align m e _) as [mz ez].
  apply binary_round_aux_sign. lia.
Qed.

Lemma of_int_nonneg (n : Z) (f : float) :
  0 <= n -> of_int n = Some f -> nonneg f = true.
Proof.
  intros Hn. unfold of_int, binary_normalize.
  destruct n as [|p|p]; try lia.
  - intros [= <-]. reflexivity.
  - pose proof (binary_round_sign false p 0) as Hs.
    destruct (binary_round prec emax false p 0) as [s|s| |s m e];
      simpl in Hs; try discriminate; intros [= <-]; subst; reflexivity.
Qed.

Lemma of_decimal_nonneg (n : Z) (k : nat) : nonneg (of_decimal n k) = true.
Proof.
  unfold of_decimal. destruct n as [|p|p]; try reflexivity.
  apply has_sign_nonneg. unfold SFdiv, SFdiv_core_binary.
  set (m' := match _ - _ - _ with Z0 => Zpos p | Zpos _ => _ | Zneg _ => 0 end).
  assert (Hm : 0 <= m').
  { subst m'. destruct (_ - _ - _); try lia. apply Z.shiftl_nonneg. lia. }
  pose proof (Z.div_pos m' (Zpos (pow10 k)) Hm ltac:(lia)) as Hq.
  unfold Z.div in Hq.
  destruct (Z.div_eucl m' (Zpos (pow10 k))) as [q r].
  apply binary_round_aux_sign. exact Hq.
Qed.

Lemma add_nonneg (a b : float) :
  nonneg a = true -> nonneg b = true -> nonneg (add a b) = true.
Proof.
  destruct a as [[]|[]| |[] ma ea], b as [[]|[]| |[] mb eb];
    simpl; try congruence; intros _ _.
  apply has_sign_nonneg. unfold add, SFadd, binary_normalize. simpl.
  apply binary_round_sign.
Qed.

End PyFloatFacts.

(** ** The window selector *)

Module WindowFacts.

Import WindowManager.

(** C4. For a window size above zero and an active index inside a
    sequence of [total] lines: when [total <= size] the window is
    [(0, total)]; otherwise it is a half-open window inside the sequence
    of exactly [size] lines.  The three worked cases of the specification
    are included. *)
Theorem get_indices_full_window :
  (forall size idx total : Z,
     0 < size -> 0 <= idx < total -> 0 <= total ->
     (total <= size -> get_indices size idx total = (0, total)) /\
     (size < total ->
      let (start, stop) := get_indices size idx total in
      0 <= start <= stop /\ stop <= total /\ stop - start = size)) /\
  get_indices 10 50 100 = (45, 55) /\
  get_indices 10 2 100 = (0, 10) /\
  get_indices 10 98 100 = (90, 100).
Proof.
  split; [|repeat split; reflexivity].
  intros size idx total Hsize Hidx Htotal. unfold get_indices. split.
  - intros Hle. apply Z.leb_le in Hle. rewrite Hle. reflexivity.
  - intros Hlt. destruct (Z.leb_spec total size) as [Hc|_]; [lia|].
    assert (Hhalf : 0 <= size / 2 <= size).
    { split; [apply Z.div_pos; lia|].
      apply Z.div_le_upper_bound; lia. }
    lia.
Qed.

Lemma get_indices_full_window_witness :
  0 < 10 /\ 0 <= 98 < 100 /\ 0 <= 100 /\
  (let (start, stop) := get_indices 10 98 100 in
   0 <= start <= stop /\ stop <= 100 /\ stop - start = 10).
Proof.
  split; [lia|]. split; [lia|]. split; [lia|].
  apply (proj1 get_indices_full_window 10 98 100); lia.
Defined.

End WindowFacts.

(** ** Start-up *)

Module MainFacts.

(** C3, as the code has it.  [main] does not look at the window size or
    at the cache capacity: whatever their values, it enters the loop as
    soon as a player is chosen, in the state built from these very values,
    and it ends before the loop only when no player is chosen. *)
Theorem main_enters_loop_for_any_sizes (a : args) (env : players) :
  main a env =
    match LyricsManager.truthy (choose_player (arg_player a) env) with
    | Some p => Loop (RunLyrics.start p (arg_window a) (arg_cache_size a))
    | None => NoActivePlayer
    end
  /\ (enters_loop (main a env) =
      enters_loop (main (Args (arg_player a) 10 50) env)).
Proof.
  unfold main. simpl.
  destruct (LyricsManager.truthy (choose_player (arg_player a) env));
    split; reflexivity.
Qed.

(** C3 as stated fails: with a window size of zero and a capacity of zero
    the loop is entered. *)
Lemma main_invalid_sizes_not_fatal :
  ~ (forall (a : args) (env : players),
       arg_window a <= 0 \/ arg_cache_size a < 1 ->
       enters_loop (main a env) = false).
Proof.
  intros H.
  specialize (H (Args (Some "mpv"%string) 0 0) None (or_introl (Z.le_refl 0))).
  discriminate H.
Qed.

End MainFacts.

(** ** The active line *)

Module LocatorFacts.

Import PyFloat PyFloatFacts.

#[local] Instance offset_le_trans : RelationClasses.Transitive offset_le.
Proof. intros a b c. unfold offset_le. apply le_trans. Qed.

Lemma offset_at_cons (a : lyric_line) (l : list lyric_line) (k : nat) :
  offset_at (a :: l) (S k) = offset_at l k.
Proof. reflexivity. Qed.

(** In a sorted sequence a line is at most every later line. *)
Lemma sorted_offsets (l : list lyric_line) :
  non_decreasing l ->
  forall i j, (i < j < List.length l)%nat ->
  le (offset_at l i) (offset_at l j) = true.
Proof.
  intros Hs. apply Sorted_StronglySorted in Hs; [|exact offset_le_trans].
  induction Hs as [|a l Hl IH Ha]; intros i j Hij; simpl in Hij; [lia|].
  destruct j as [|j]; [lia|]. rewrite offset_at_cons.
  destruct i as [|i].
  - rewrite Forall_forall in Ha. apply (Ha (nth j l (S754_nan, []))).
    apply nth_In. lia.
  - rewrite offset_at_cons. apply IH. lia.
Qed.

(** A [break] at [j] means the time lies between line [j] and the next. *)
Lemma first_active_Some (l : list lyric_line) (t : float) :
  forall i j, first_active i l t = Some j ->
  exists k : nat,
    j = i + Z.of_nat k /\ (S k < List.length l)%nat /\
    le (offset_at l k) t = true /\ lt t (offset_at l (S k)) = true.
Proof.
  induction l as [|a l IH]; intros i j H; [discriminate|].
  destruct l as [|b l]; [discriminate|].
  cbn [first_active] in H.
  destruct (le (fst a) t && lt t (fst b)) eqn:Hc.
  - injection H as <-. apply andb_prop in Hc as [H1 H2].
    exists 0%nat. repeat split; simpl; try lia; assumption.
  - apply IH in H as (k & -> & Hk & H1 & H2).
    exists (S k). repeat split; simpl in *; try lia; assumption.
Qed.

(** An exhausted range means no line is followed by a later time. *)
Lemma first_active_None (l : list lyric_line) (t : float) :
  forall i, first_active i l t = None ->
  forall k, (S k < List.length l)%nat ->
  le (offset_at l k) t = true -> lt t (offset_at l (S k)) = false.
Proof.
  induction l as [|a l IH]; intros i H k Hk Hle; [simpl in Hk; lia|].
  destruct l as [|b l]; [simpl in Hk; lia|].
  cbn [first_active] in H.
  destruct (le (fst a) t && lt t (fst b)) eqn:Hc; [discriminate|].
  destruct k as [|k].
  - change (offset_at (a :: b :: l) 0) with (fst a) in Hle.
    change (offset_at (a :: b :: l) 1) with (fst b).
    rewrite Hle in Hc. exact Hc.
  - rewrite offset_at_cons in *. apply (IH _ H); [simpl in *; lia|exact Hle].
Qed.

(** With the first line reached and no line followed by a later time,
    every line is reached. *)
Lemma all_reached (l : list lyric_line) (t : float) :
  non_decreasing l ->
  le (offset_at l 0) t = true ->
  (forall k, (S k < List.length l)%nat ->
     le (offset_at l k) t = true -> lt t (offset_at l (S k)) = false) ->
  forall k, (k < List.length l)%nat -> le (offset_at l k) t = true.
Proof.
  intros Hs H0 Hnone k. induction k as [|k IH]; intros Hk; [exact H0|].
  assert (Hk' : (k < List.length l)%nat) by lia.
  specialize (IH Hk').
  apply not_lt_le.
  - apply (le_not_nan (offset_at l k) (offset_at l (S k))).
    apply sorted_offsets; [exact Hs|lia].
  - apply (le_not_nan _ _ H0).
  - apply Hnone; assumption.
Qed.

(** What the loop of [render_panel] computes on a sorted sequence whose
    first line has been reached. *)
Lemma active_index_reached (l : list lyric_line) (t : float) :
  l <> [] -> non_decreasing l -> le (offset_at l 0) t = true ->
  exists i : nat,
    active_index l t = Z.of_nat i /\ (i < List.length l)%nat /\
    reached l t i /\
    (forall j, (j < List.length l)%nat -> reached l t j -> (j <= i)%nat).
Proof.
  intros Hne Hs H0. unfold active_index.
  destruct (first_active 0 l t) as [j|] eqn:Hf.
  - apply first_active_Some in Hf as (k & -> & Hk & H1 & H2).
    exists k. split; [lia|]. split; [lia|]. split.
    + split; [exact H1|]. intros _. apply (le_lt_trans _ t); assumption.
    + intros j Hj [Hjt _].
      destruct (Nat.le_gt_cases j k) as [|Hgt]; [assumption|exfalso].
      assert (Hle : le (offset_at l (S k)) t = true).
      { destruct (Nat.eq_dec j (S k)) as [->|Hneq]; [exact Hjt|].
        apply (le_trans _ (offset_at l j)); [|exact Hjt].
        apply sorted_offsets; [exact Hs|lia]. }
      apply le_not_lt in Hle. congruence.
  - pose proof (first_active_None l t 0 Hf) as Hnone.
    destruct l as [|a l]; [congruence|].
    exists (List.length l). split; [simpl List.length; lia|].
    split; [simpl; lia|]. split.
    + split; [|simpl; lia].
      apply all_reached; [exact Hs|exact H0|exact Hnone|simpl; lia].
    + intros j Hj _. simpl in Hj. lia.
Qed.

(** Before the first offset of a sorted sequence no line is followed by a
    later time that has reached it, so the range is exhausted. *)
Lemma first_active_before_first (l : list lyric_line) (t : float) :
  non_decreasing l -> lt t (offset_at l 0) = true ->
  first_active 0 l t = None.
Proof.
  intros Hs Ht.
  destruct (first_active 0 l t) as [j|] eqn:Hf; [exfalso|reflexivity].
  apply first_active_Some in Hf as (k & _ & Hk & H1 & _).
  assert (Hle : le (offset_at l 0) t = true).
  { destruct k as [|k]; [exact H1|].
    apply (le_trans _ (offset_at l (S k))); [|exact H1].
    apply sorted_offsets; [exact Hs|lia]. }
  apply le_not_lt in Hle. congruence.
Qed.

(** C9. On a non-empty sorted sequence, at a time at or after the first
    offset, the index computed is the greatest index whose line has been
    reached and is strictly before the following line, when there is one;
    it is the last index when the time is at or after the last offset, and
    0 for a sequence of one line. *)
Theorem active_index_greatest_reached (lyrics : list lyric_line) (t : float) :
  lyrics <> [] -> non_decreasing lyrics ->
  le (offset_at lyrics 0) t = true ->
  exists i : nat,
    active_index lyrics t = Z.of_nat i /\ (i < List.length lyrics)%nat /\
    reached lyrics t i /\
    (forall j, (j < List.length lyrics)%nat -> reached lyrics t j ->
               (j <= i)%nat) /\
    (le (offset_at lyrics (List.length lyrics - 1)) t = true ->
     i = (List.length lyrics - 1)%nat) /\
    (List.length lyrics = 1%nat -> i = 0%nat).
Proof.
  intros Hne Hs H0.
  destruct (active_index_reached lyrics t Hne Hs H0)
    as (i & Hi & Hlt & Hr & Hmax).
  exists i. repeat split; try assumption; try apply Hr.
  - intros Hlast.
    assert (Hj : (List.length lyrics - 1 <= i)%nat).
    { apply Hmax; [lia|]. split; [exact Hlast|lia]. }
    lia.
  - lia.
Qed.

Lemma active_index_greatest_reached_witness :
  three_lines <> [] /\ non_decreasing three_lines /\
  le (offset_at three_lines 0) (lit 10) = true /\
  exists i : nat,
    active_index three_lines (lit 10) = Z.of_nat i /\
    (i < List.length three_lines)%nat /\
    reached three_lines (lit 10) i /\
    (forall j, (j < List.length three_lines)%nat ->
               reached three_lines (lit 10) j -> (j <= i)%nat) /\
    (le (offset_at three_lines (List.length three_lines - 1)) (lit 10) = true ->
     i = (List.length three_lines - 1)%nat) /\
    (List.length three_lines = 1%nat -> i = 0%nat).
Proof.
  split; [discriminate|].
  split; [repeat constructor|].
  split; [reflexivity|].
  apply (active_index_greatest_reached three_lines (lit 10)).
  - discriminate.
  - repeat constructor.
  - reflexivity.
Defined.

(** C1 asks for index 0 before the first offset.  The code gives the last
    index instead: the range is exhausted without a [break], and the
    [else] of the loop overwrites the initial [idx = 0]. *)
Theorem active_index_before_first_is_last
    (lyrics : list lyric_line) (t : float) :
  non_decreasing lyrics -> lt t (offset_at lyrics 0) = true ->
  active_index lyrics t = Z.of_nat (List.length lyrics) - 1.
Proof.
  intros Hs Ht. unfold active_index.
  rewrite (first_active_before_first lyrics t Hs Ht). reflexivity.
Qed.

Lemma active_index_before_first_is_last_witness :
  non_decreasing three_lines /\
  lt (lit (-1)) (offset_at three_lines 0) = true /\
  active_index three_lines (lit (-1)) = 2.
Proof.
  split; [repeat constructor|]. split; [reflexivity|].
  apply (active_index_before_first_is_last three_lines (lit (-1))).
  - repeat constructor.
  - reflexivity.
Defined.

(** The other three locator examples of the specification hold. *)
Example active_index_examples :
  active_index three_lines (lit 5) = 0 /\
  active_index three_lines (lit 10) = 1 /\
  active_index three_lines (lit 25) = 2.
Proof. repeat split; reflexivity. Qed.

End LocatorFacts.

(** ** The sort of the parser *)

Module SortFacts.

Import PyFloat PyFloatFacts LyricsManager.

Lemma eq_not_lt (a b x : float) :
  eq a x = true -> eq b x = true -> lt b a = false.
Proof. float_order. Qed.

Lemma insert_perm (x : lyric_line) (l : list lyric_line) :
  Permutation (x :: l) (insert x l).
Proof.
  induction l as [|y l IH]; simpl; [reflexivity|].
  destruct (lt (fst y) (fst x)); [|reflexivity].
  rewrite perm_swap. apply perm_skip, IH.
Qed.

Lemma sorted_perm (l : list lyric_line) : Permutation l (sorted l).
Proof.
  induction l as [|x l IH]; simpl; [constructor|].
  rewrite <- insert_perm. apply perm_skip, IH.
Qed.

Lemma insert_Forall (P : lyric_line -> Prop) (x : lyric_line)
    (l : list lyric_line) :
  P x -> Forall P l -> Forall P (insert x l).
Proof.
  intros Hx Hl. apply (Permutation_Forall (insert_perm x l)).
  constructor; assumption.
Qed.

Lemma insert_sorted (x : lyric_line) (l : list lyric_line) :
  not_nan x -> Forall not_nan l ->
  StronglySorted offset_le l -> StronglySorted offset_le (insert x l).
Proof.
  intros Hx Hn Hs. induction Hs as [|y l Hl IH Hy]; simpl.
  - repeat constructor.
  - inversion Hn as [|? ? Hny Hnl]; subst.
    destruct (lt (fst y) (fst x)) eqn:Hc.
    + constructor; [apply IH; exact Hnl|].
      apply insert_Forall; [apply lt_le; exact Hc|exact Hy].
    + assert (Hxy : offset_le x y) by (apply not_lt_le; assumption).
      constructor; [constructor; assumption|].
      constructor; [exact Hxy|].
      eapply Forall_impl; [|exact Hy].
      intros z Hz. unfold offset_le in *. eapply le_trans; eassumption.
Qed.

Lemma sorted_sorted (l : list lyric_line) :
  Forall not_nan l -> StronglySorted offset_le (sorted l).
Proof.
  induction 1 as [|x l Hx Hl IH]; simpl; [constructor|].
  apply insert_sorted; [exact Hx| |exact IH].
  apply (Permutation_Forall (sorted_perm l)). exact Hl.
Qed.

(** Stability: the lines at one offset come out in the order they went
    in. *)
Lemma insert_at_offset (o : float) (x : lyric_line) (l : list lyric_line) :
  at_offset o (insert x l) = at_offset o (x :: l).
Proof.
  unfold at_offset. induction l as [|y l IH]; [reflexivity|].
  cbn [insert]. destruct (lt (fst y) (fst x)) eqn:Hc; [|reflexivity].
  cbn [filter] in *. rewrite IH.
  destruct (eq (fst x) o) eqn:Hx, (eq (fst y) o) eqn:Hy; try reflexivity.
  rewrite (eq_not_lt _ _ _ Hx Hy) in Hc. discriminate.
Qed.

Lemma sorted_at_offset (o : float) (l : list lyric_line) :
  at_offset o (sorted l) = at_offset o l.
Proof.
  induction l as [|x l IH]; [reflexivity|].
  cbn [sorted fold_right]. fold (sorted l). rewrite insert_at_offset.
  unfold at_offset in *. cbn [filter]. rewrite IH. reflexivity.
Qed.

Lemma sorted_nil (l : list lyric_line) : sorted l = [] -> l = [].
Proof.
  intros H. pose proof (sorted_perm l) as Hp. rewrite H in Hp.
  apply Permutation_sym, Permutation_nil in Hp. exact Hp.
Qed.

End SortFacts.

(** ** The parser *)

Module ParserFacts.

Import PyFloat PyFloatFacts PyStr TimestampRe LyricsManager SortFacts.

Lemma digit_value_nonneg (c : char) : is_digit c = true -> 0 <= digit_value c.
Proof.
  intros _. unfold digit_value.
  destruct (find (in_run c) decimal_runs); [apply N2Z.is_nonneg|lia].
Qed.

Lemma digits_value_from_nonneg (s : str) :
  forall acc, all_digits s = true -> 0 <= acc -> 0 <= digits_value_from acc s.
Proof.
  induction s as [|c s IH]; intros acc Hd Hacc; cbn [digits_value_from];
    [exact Hacc|].
  cbn [all_digits] in Hd. apply andb_prop in Hd as [Hc Hs].
  apply IH; [exact Hs|]. pose proof (digit_value_nonneg c Hc). lia.
Qed.

Lemma int_nonneg (s : str) (n : Z) : PyStr.int s = Some n -> 0 <= n.
Proof.
  unfold PyStr.int. destruct (all_digits s) eqn:Hd; simpl; [|discriminate].
  destruct (_ && _); [|discriminate]. intros [= <-].
  apply digits_value_from_nonneg; [exact Hd|lia].
Qed.

Lemma float_nonneg (s : str) (f : PyFloat.float) :
  PyStr.float s = Some f -> nonneg f = true.
Proof.
  unfold PyStr.float. destruct (span_digits s) as [ip r].
  destruct r as [|c fp]; [discriminate|].
  destruct (_ && _); [|discriminate]. intros [= <-].
  apply of_decimal_nonneg.
Qed.

(** An offset computed from a token is zero, positive or [+inf]. *)
Lemma token_offset_nonneg (m : rematch) (off : PyFloat.float) :
  token_offset m = Some off -> nonneg off = true.
Proof.
  unfold token_offset.
  destruct (PyStr.int (group1 m)) as [mins|] eqn:Hi; [|discriminate].
  destruct (PyStr.float (group2 m)) as [secs|] eqn:Hf; [|discriminate].
  destruct (of_int (mins * 60)) as [f|] eqn:Ho; [|discriminate].
  intros [= <-]. apply add_nonneg.
  - apply (of_int_nonneg (mins * 60)); [|exact Ho].
    apply int_nonneg in Hi. lia.
  - apply (float_nonneg _ _ Hf).
Qed.

Lemma emit_not_nan (lyric : str) (ms : list rematch) :
  Forall not_nan (emit lyric ms).
Proof.
  induction ms as [|m ms IH]; simpl; [constructor|].
  destruct (token_offset m) as [off|] eqn:Ho; [|exact IH].
  constructor; [|exact IH].
  apply nonneg_not_nan, (token_offset_nonneg m), Ho.
Qed.

Lemma collected_not_nan (text : str) : Forall not_nan (collected text).
Proof.
  unfold collected. induction (splitlines text) as [|line ls IH]; simpl;
    [constructor|].
  apply Forall_app. split; [|exact IH].
  unfold record_lines. destruct (finditer line); [constructor|].
  apply emit_not_nan.
Qed.

(** C5. Whatever the text, [parse_lrc] returns a sequence that is not
    empty and is sorted non-decreasing by offset; when lines were
    collected, the result holds exactly those lines, the lines at one
    offset in the order in which they were collected; when none was
    collected, the result is the single sentinel line at offset 0. *)
Theorem parse_lrc_sorted_stable (text : str) :
  parse_lrc text <> [] /\
  StronglySorted offset_le (parse_lrc text) /\
  (collected text <> [] ->
   Permutation (collected text) (parse_lrc text) /\
   forall o, at_offset o (parse_lrc text) = at_offset o (collected text)) /\
  (collected text = [] -> parse_lrc text = [(zero, no_parse_text)]).
Proof.
  unfold parse_lrc. pose proof (collected_not_nan text) as Hn.
  destruct (collected text) as [|x l] eqn:Hc.
  - repeat split; try discriminate; try congruence.
    repeat constructor.
  - repeat split; try discriminate.
    + intros H. apply sorted_nil in H. discriminate.
    + apply sorted_sorted, Hn.
    + apply sorted_perm.
    + intros o. apply sorted_at_offset.
Qed.

Lemma parse_lrc_sorted_stable_witness :
  collected tied_records <> [] /\
  Permutation (collected tied_records) (parse_lrc tied_records) /\
  (forall o, at_offset o (parse_lrc tied_records)
             = at_offset o (collected tied_records)) /\
  parse_lrc tied_records
  = [(of_decimal 15 1, u "early"); (lit 2, u "first"); (lit 2, u "second")].
Proof.
  assert (H : collected tied_records <> []) by (vm_compute; discriminate).
  split; [exact H|].
  destruct (parse_lrc_sorted_stable tied_records) as (_ & _ & Hc & _).
  destruct (Hc H) as [Hp Hs].
  split; [exact Hp|]. split; [exact Hs|]. vm_compute. reflexivity.
Defined.

End ParserFacts.

(** ** The timestamp pattern *)

Module PatternFacts.

Import PyStr TimestampRe.

(** Both sides of an equation between texts, with every concatenation
    nested to the right. *)
Ltac app_norm :=
  unfold bracketed, seconds;
  repeat first [rewrite <- app_assoc | progress cbn [app]].

Lemma length_append (a b : str) :
  List.length (a ++ b) = (List.length a + List.length b)%nat.
Proof. apply length_app. Qed.

Lemma append_assoc (a b c : str) : (a ++ b) ++ c = a ++ (b ++ c).
Proof. symmetry. apply app_assoc. Qed.

Lemma drop_append (a b : str) : drop (List.length a) (a ++ b) = b.
Proof. induction a as [|c a IH]; simpl; [destruct b; reflexivity|exact IH]. Qed.

Lemma drop_add (n k : nat) (s : str) : drop (n + k) s = drop k (drop n s).
Proof.
  revert s. induction n as [|n IH]; intros s; simpl.
  - destruct k, s; reflexivity.
  - destruct s as [|c s]; [destruct k; reflexivity|]. apply IH.
Qed.

Lemma bracketed_length (a b : str) :
  List.length (bracketed a b) = (List.length a + List.length b + 3)%nat.
Proof.
  unfold bracketed. cbn [List.length]. rewrite length_app. cbn [List.length].
  rewrite length_app. cbn [List.length]. lia.
Qed.

Lemma span_digits_spec (s : str) :
  forall d r, span_digits s = (d, r) -> s = d ++ r /\ all_digits d = true.
Proof.
  induction s as [|c s IH]; intros d r H; simpl in H.
  - injection H as <- <-. split; reflexivity.
  - destruct (is_digit c) eqn:Hc.
    + destruct (span_digits s) as [d' r']. injection H as <- <-.
      destruct (IH d' r' eq_refl) as [-> Hd]. split; [reflexivity|].
      simpl. rewrite Hc. exact Hd.
    + injection H as <- <-. split; reflexivity.
Qed.

(** A run of digits followed by something that is not a digit is taken
    whole. *)
Lemma span_digits_app (d : str) (c : char) (r : str) :
  all_digits d = true -> is_digit c = false ->
  span_digits (d ++ c :: r) = (d, c :: r).
Proof.
  intros Hd Hc. induction d as [|x d IH]; cbn [app span_digits].
  - rewrite Hc. reflexivity.
  - cbn [all_digits] in Hd. apply andb_prop in Hd as [Hx Hd].
    rewrite Hx, (IH Hd). reflexivity.
Qed.

Lemma digits1_spec (s d r : str) :
  digits1 s = Some (d, r) ->
  s = d ++ r /\ all_digits d = true /\ d <> [].
Proof.
  unfold digits1. destruct (span_digits s) as [d' r'] eqn:Hs.
  destruct d' as [|c d']; [discriminate|]. intros [= <- <-].
  destruct (span_digits_spec s _ _ Hs) as [-> Hd].
  repeat split; [exact Hd|discriminate].
Qed.

Lemma digits1_app (d : str) (c : char) (r : str) :
  all_digits d = true -> d <> [] -> is_digit c = false ->
  digits1 (d ++ c :: r) = Some (d, c :: r).
Proof.
  intros Hd Hn Hc. unfold digits1. rewrite (span_digits_app d c r Hd Hc).
  destruct d; [congruence|reflexivity].
Qed.

Lemma expect_spec (c : char) (s r : str) :
  expect c s = Some r -> s = c :: r.
Proof.
  unfold expect. destruct s as [|c' s]; [discriminate|].
  destruct (N.eqb_spec c c') as [->|]; [|discriminate].
  intros [= ->]. reflexivity.
Qed.

Lemma expect_here (c : char) (s : str) : expect c (c :: s) = Some s.
Proof. unfold expect. rewrite N.eqb_refl. reflexivity. Qed.

(** A match is an opening bracket, digits, a colon, digits, a point,
    digits and a closing bracket, and its length is their number. *)
Lemma match_here_spec (s g1 g2 : str) (len : nat) :
  match_here s = Some (g1, g2, len) ->
  well_formed (Match 0 len g1 g2) /\
  exists rest, s = bracketed g1 g2 ++ rest /\
               len = List.length (bracketed g1 g2).
Proof.
  unfold match_here.
  destruct (expect (ch "[") s) as [s1|] eqn:E1; [|discriminate].
  destruct (digits1 s1) as [[mins s2]|] eqn:D1; [|discriminate].
  destruct (expect (ch ":") s2) as [s3|] eqn:E2; [|discriminate].
  destruct (digits1 s3) as [[ip s4]|] eqn:D2; [|discriminate].
  destruct (expect (ch ".") s4) as [s5|] eqn:E3; [|discriminate].
  destruct (digits1 s5) as [[fp s6]|] eqn:D3; [|discriminate].
  destruct (expect (ch "]") s6) as [s7|] eqn:E4; [|discriminate].
  intros [= <- <- <-].
  apply expect_spec in E1, E2, E3, E4.
  apply digits1_spec in D1 as (-> & H1 & N1).
  apply digits1_spec in D2 as (-> & H2 & N2).
  apply digits1_spec in D3 as (-> & H3 & N3).
  subst. split.
  - unfold well_formed; cbn [group1 group2]. repeat split; try assumption.
    exists ip, fp. repeat split; assumption.
  - exists s7. split.
    + app_norm. reflexivity.
    + rewrite bracketed_length, length_app. cbn [List.length]. lia.
Qed.

Lemma well_formed_groups (a b a' b' : nat) (g1 g2 : str) :
  well_formed (Match a b g1 g2) -> well_formed (Match a' b' g1 g2).
Proof. exact (fun H => H). Qed.

(** Every match found in a line has well-formed groups. *)
Lemma finditer_from_well_formed (s : str) :
  forall skip pos m, In m (finditer_from skip pos s) -> well_formed m.
Proof.
  induction s as [|c s IH]; intros skip pos m H; [destruct H|].
  cbn [finditer_from] in H. destruct skip as [|k]; [|exact (IH _ _ _ H)].
  destruct (match_here (c :: s)) as [[[g1 g2] len]|] eqn:Hm;
    [|exact (IH _ _ _ H)].
  destruct H as [<-|H]; [|exact (IH _ _ _ H)].
  apply match_here_spec in Hm as [Hw _].
  exact (well_formed_groups _ _ _ _ _ _ Hw).
Qed.

(** The scan does not depend on where the text starts, except for the
    positions it reports. *)
Lemma finditer_from_shift (p : nat) (s : str) :
  forall skip q,
    finditer_from skip (p + q) s = map (shift p) (finditer_from skip q s).
Proof.
  induction s as [|c s IH]; intros skip q; [reflexivity|].
  cbn [finditer_from]. rewrite !plus_n_Sm.
  destruct skip as [|k]; [|apply IH].
  destruct (match_here (c :: s)) as [[[g1 g2] len]|]; [|apply IH].
  cbn [map]. rewrite IH. f_equal.
  unfold shift. cbn. rewrite Nat.add_assoc. reflexivity.
Qed.

Lemma match_here_no_bracket (c : char) (s : str) :
  (c =? ch "[")%N = false -> match_here (c :: s) = None.
Proof.
  intros H. unfold match_here, expect.
  rewrite N.eqb_sym, H. reflexivity.
Qed.

(** No match starts inside a text without opening bracket. *)
Lemma finditer_from_no_bracket (pre rest : str) :
  no_bracket pre = true ->
  forall pos,
    finditer_from 0 pos (pre ++ rest)
    = finditer_from 0 (pos + List.length pre) rest.
Proof.
  induction pre as [|c pre IH]; intros Hn pos; cbn [app List.length].
  - rewrite Nat.add_0_r. reflexivity.
  - cbn [no_bracket] in Hn. apply andb_prop in Hn as [Hc Hn].
    apply negb_true_iff in Hc.
    cbn [finditer_from].
    rewrite (match_here_no_bracket c (pre ++ rest) Hc).
    rewrite (IH Hn). f_equal. lia.
Qed.

Lemma no_bracket_append (a b : str) :
  no_bracket (a ++ b) = no_bracket a && no_bracket b.
Proof.
  induction a as [|c a IH]; cbn [app no_bracket]; [reflexivity|].
  rewrite IH, andb_assoc. reflexivity.
Qed.

Lemma all_digits_no_bracket (d : str) :
  all_digits d = true -> no_bracket d = true.
Proof.
  induction d as [|c d IH]; cbn [all_digits no_bracket]; [reflexivity|].
  intros H. apply andb_prop in H as [Hc Hd]. rewrite (IH Hd), andb_true_r.
  apply negb_true_iff. destruct (N.eqb_spec c (ch "[")) as [->|]; [|reflexivity].
  discriminate Hc.
Qed.

(** A bracketed minutes and seconds without a fraction is no match. *)
Lemma match_here_no_fraction (m s rest : str) :
  all_digits m = true -> all_digits s = true ->
  match_here (bracketed m s ++ rest) = None.
Proof.
  intros Hm Hs. unfold match_here. app_norm. rewrite expect_here.
  unfold digits1 at 1. rewrite (span_digits_app m (ch ":") _ Hm eq_refl).
  destruct m as [|c m]; [reflexivity|]. rewrite expect_here.
  unfold digits1 at 1. rewrite (span_digits_app s (ch "]") _ Hs eq_refl).
  destruct s as [|c' s]; reflexivity.
Qed.

End PatternFacts.

(** ** The lines of one record *)

Module RecordFacts.

Import PyFloat PyFloatFacts PyStr TimestampRe LyricsManager.
Import SortFacts PatternFacts.

Lemma all_digits_length (s : str) :
  s <> [] -> (List.length s =? 0)%nat = false.
Proof. destruct s; [congruence|reflexivity]. Qed.

Lemma token_offset_minutes_seconds (m : rematch) (off : PyFloat.float) :
  token_offset m = Some off <-> minutes_seconds m off.
Proof.
  unfold token_offset, minutes_seconds. split.
  - destruct (PyStr.int (group1 m)) as [mins|]; [|discriminate].
    destruct (PyStr.float (group2 m)) as [secs|]; [|discriminate].
    destruct (of_int (mins * 60)) as [f|] eqn:Hf; [|discriminate].
    intros [= <-]. exists mins, secs, f. repeat split; try reflexivity.
    exact Hf.
  - intros (mins & secs & f & H1 & H2 & H3 & ->).
    rewrite H1, H2. cbv beta iota. rewrite H3. reflexivity.
Qed.

(** The conversions of a well-formed token fail in one way only: minutes
    out of range. *)
Lemma token_offset_in_range (m : rematch) :
  well_formed m -> in_range m -> exists off, token_offset m = Some off.
Proof.
  intros (H1 & N1 & ip & fp & H2 & Hip & Nip & Hfp & Nfp) [Hlen Hconv].
  unfold token_offset, PyStr.int, PyStr.float.
  rewrite H1, (all_digits_length _ N1).
  apply Nat.leb_le in Hlen. rewrite Hlen. cbn [andb negb].
  rewrite H2. unfold seconds.
  rewrite (span_digits_app ip (ch ".") fp Hip eq_refl).
  rewrite Hfp, (all_digits_length _ Nip), (all_digits_length _ Nfp).
  rewrite N.eqb_refl. cbn [andb negb].
  destruct (of_int (digits_value (group1 m) * 60)) as [f|]; [|congruence].
  eexists. reflexivity.
Qed.

Lemma emit_In (lyric : str) (ms : list rematch) (m : rematch)
    (off : PyFloat.float) :
  In m ms -> token_offset m = Some off -> In (off, lyric) (emit lyric ms).
Proof.
  induction ms as [|x ms IH]; intros Hin Ho; [destruct Hin|].
  cbn [emit]. destruct Hin as [->|Hin].
  - rewrite Ho. left. reflexivity.
  - destruct (token_offset x); [right|]; auto.
Qed.

Lemma emit_length (lyric : str) (ms : list rematch) :
  List.length (emit lyric ms) = List.length (filter converts ms).
Proof.
  induction ms as [|m ms IH]; [reflexivity|].
  cbn [emit filter]. unfold converts at 1.
  destruct (token_offset m); simpl; rewrite IH; reflexivity.
Qed.

Lemma emit_all (lyric : str) (ms : list rematch) :
  Forall (fun m => exists off, token_offset m = Some off) ms ->
  Forall2 (fun m ln => minutes_seconds m (fst ln) /\ snd ln = lyric)
          ms (emit lyric ms).
Proof.
  induction 1 as [|m ms [off Ho] _ IH]; cbn [emit]; [constructor|].
  rewrite Ho. constructor; [|exact IH].
  split; [|reflexivity]. apply token_offset_minutes_seconds. exact Ho.
Qed.

Lemma emit_shift (lyric : str) (p : nat) (ms : list rematch) :
  emit lyric (map (shift p) ms) = emit lyric ms.
Proof.
  induction ms as [|m ms IH]; [reflexivity|].
  cbn [map emit]. rewrite IH. reflexivity.
Qed.

Lemma record_lines_emit (line : str) :
  record_lines line = emit (trailing_text line) (finditer line).
Proof.
  unfold record_lines, trailing_text, lyric_of.
  destruct (finditer line); reflexivity.
Qed.

Lemma last_shift (p : nat) (ms : list rematch) (d d' : rematch) :
  ms <> [] -> last (map (shift p) ms) d = shift p (last ms d').
Proof.
  induction ms as [|m ms IH]; [congruence|]. intros _.
  destruct ms as [|m' ms]; [reflexivity|].
  change (last (map (shift p) (m' :: ms)) d = shift p (last (m' :: ms) d')).
  apply IH. discriminate.
Qed.

(** A text without opening bracket in front of a record changes nothing
    to the lines of the record, as soon as no match starts in it. *)
Lemma record_lines_prefix (pre rest : str) :
  finditer (pre ++ rest) = map (shift (List.length pre)) (finditer rest) ->
  record_lines (pre ++ rest) = record_lines rest.
Proof.
  intros H. rewrite !record_lines_emit.
  unfold trailing_text. rewrite H, emit_shift.
  destruct (finditer rest) as [|m ms] eqn:Hr; [reflexivity|].
  rewrite (last_shift _ _ _ (Match 0 0 [] [])); [|discriminate].
  cbn [shift m_end]. rewrite drop_add, drop_append. reflexivity.
Qed.

Lemma finditer_no_fraction (m s rest : str) :
  all_digits m = true -> all_digits s = true ->
  finditer (bracketed m s ++ rest)
  = map (shift (List.length (bracketed m s))) (finditer rest).
Proof.
  intros Hm Hs. unfold finditer.
  pose proof (match_here_no_fraction m s rest Hm Hs) as Hnone.
  assert (Hb : bracketed m s ++ rest
               = ch "[" :: (m ++ ch ":" :: s ++ [ch "]"]) ++ rest)
    by reflexivity.
  rewrite Hb in *. cbn [finditer_from]. rewrite Hnone.
  rewrite finditer_from_no_bracket.
  - rewrite <- (finditer_from_shift _ rest 0 0). f_equal.
    unfold bracketed. cbn [List.length]. lia.
  - rewrite no_bracket_append, (all_digits_no_bracket m Hm).
    cbn [no_bracket]. rewrite no_bracket_append.
    rewrite (all_digits_no_bracket s Hs). reflexivity.
Qed.

(** C10. A bracketed token whose seconds have no fraction is no
    timestamp: in front of any text, it leaves the lines this text gives
    unchanged, so a record made of such tokens and plain text gives no
    line at all, as ["[0:30]text"] shows. *)
Theorem no_fraction_token_ignored :
  (forall m s rest : str,
     all_digits m = true -> all_digits s = true ->
     record_lines (bracketed m s ++ rest) = record_lines rest) /\
  finditer (u "[0:30]text") = [] /\
  record_lines (u "[0:30]text") = record_lines (u "text") /\
  record_lines (u "[0:30]text") = [] /\
  parse_lrc (u "[0:30]text") = [(zero, no_parse_text)].
Proof.
  split; [|repeat split; reflexivity].
  intros m s rest Hm Hs.
  apply record_lines_prefix, finditer_no_fraction; assumption.
Qed.

Lemma no_fraction_token_ignored_witness :
  all_digits (u "0") = true /\ all_digits (u "30") = true /\
  record_lines (bracketed (u "0") (u "30") ++ u "[1:02.5]text")
  = record_lines (u "[1:02.5]text").
Proof.
  split; [reflexivity|]. split; [reflexivity|].
  apply (proj1 no_fraction_token_ignored (u "0") (u "30") (u "[1:02.5]text"));
    reflexivity.
Defined.

(** C7. A token that cannot be converted is dropped and nothing else: a
    token of a record that converts gives a line of the result whatever
    else the record and the text hold, and a record gives as many lines as
    it has tokens that convert.  A bracket that is no timestamp, as in
    ["[0:01.0][bad]hello"], is not even a token: one line at offset 1.0
    remains.  So does one line when the minutes of the other token are too
    large for a float.  Records end at every line boundary: two records
    on the two sides of a line separator give their two lines. *)
Theorem malformed_token_dropped :
  (forall (text line : str) (m : rematch) (off : PyFloat.float),
     In line (splitlines text) -> In m (finditer line) ->
     token_offset m = Some off ->
     In (off, trailing_text line) (parse_lrc text)) /\
  (forall line : str,
     List.length (record_lines line)
     = List.length (filter converts (finditer line))) /\
  parse_lrc (u "[0:01.0][bad]hello") = [(lit 1, u "[bad]hello")] /\
  parse_lrc huge_minutes_record = [(lit 5, u "hello")] /\
  parse_lrc separated_records = [(lit 1, u "a"); (lit 2, u "b")].
Proof.
  split; [|split; [|repeat split; vm_compute; reflexivity]].
  - intros text line m off Hline Hm Ho.
    assert (Hc : In (off, trailing_text line) (collected text)).
    { unfold collected. apply in_flat_map. exists line. split; [exact Hline|].
      rewrite record_lines_emit. apply (emit_In _ _ m); assumption. }
    unfold parse_lrc. destruct (collected text) as [|x l] eqn:Hl;
      [destruct Hc|].
    apply (Permutation_in _ (sorted_perm (x :: l))). exact Hc.
  - intros line. rewrite record_lines_emit. apply emit_length.
Qed.

Lemma malformed_token_dropped_witness :
  In (u "[0:02.0]b") (splitlines separated_records) /\
  In (Match 0 8 (u "0") (u "02.0")) (finditer (u "[0:02.0]b")) /\
  token_offset (Match 0 8 (u "0") (u "02.0")) = Some (lit 2) /\
  In (lit 2, trailing_text (u "[0:02.0]b")) (parse_lrc separated_records).
Proof.
  split; [right; left; reflexivity|]. split; [left; reflexivity|].
  split; [reflexivity|].
  apply (proj1 malformed_token_dropped
           separated_records (u "[0:02.0]b") (Match 0 8 (u "0") (u "02.0"))).
  - right. left. reflexivity.
  - left. reflexivity.
  - reflexivity.
Defined.

(** C6, for tokens that convert.  When the minutes of every token of a
    record are in range, the record gives one line per token, in the order
    of the tokens, each at minutes times sixty plus seconds of its own
    token and each with the trimmed text after the last token; so
    ["[0:01.0][0:05.0]hello"] gives ["hello"] at 1.0 and at 5.0, also when
    an ideographic space stands in front of the text. *)
Theorem one_line_per_token_in_range :
  (forall line : str,
     Forall in_range (finditer line) ->
     Forall2 (fun m ln => minutes_seconds m (fst ln) /\
                          snd ln = trailing_text line)
             (finditer line) (record_lines line)) /\
  parse_lrc (u "[0:01.0][0:05.0]hello")
  = [(lit 1, u "hello"); (lit 5, u "hello")] /\
  parse_lrc (u "[0:01.0][0:05.0]" ++ ideographic_space :: u "hello")
  = [(lit 1, u "hello"); (lit 5, u "hello")].
Proof.
  split; [|split; vm_compute; reflexivity].
  intros line Hr. rewrite record_lines_emit. apply emit_all.
  rewrite Forall_forall in *. intros m Hm.
  apply token_offset_in_range; [|apply Hr; exact Hm].
  apply (finditer_from_well_formed line 0 0 m Hm).
Qed.

Lemma one_line_per_token_in_range_witness :
  Forall in_range (finditer (u "[0:01.0][0:05.0]hello")) /\
  Forall2 (fun m ln => minutes_seconds m (fst ln) /\
                       snd ln = trailing_text (u "[0:01.0][0:05.0]hello"))
          (finditer (u "[0:01.0][0:05.0]hello"))
          (record_lines (u "[0:01.0][0:05.0]hello")).
Proof.
  assert (H : Forall in_range (finditer (u "[0:01.0][0:05.0]hello"))).
  { change (finditer (u "[0:01.0][0:05.0]hello"))
      with [Match 0 8 (u "0") (u "01.0"); Match 8 16 (u "0") (u "05.0")].
    constructor; [|constructor; [|constructor]];
      (split; [vm_compute; lia|vm_compute; discriminate]). }
  split; [exact H|].
  apply (proj1 one_line_per_token_in_range (u "[0:01.0][0:05.0]hello") H).
Defined.

(** C6 as stated fails: a record of two tokens, the first with minutes too
    large for a float, gives one line only. *)
Lemma one_line_per_token_fails :
  ~ (forall line : str,
       (2 <= List.length (finditer line))%nat ->
       List.length (record_lines line) = List.length (finditer line)).
Proof.
  intros H. specialize (H huge_minutes_record).
  assert (H2 : (2 <= List.length (finditer huge_minutes_record))%nat)
    by (vm_compute; lia).
  specialize (H H2). vm_compute in H. discriminate H.
Qed.

End RecordFacts.

(** ** The cache *)

Module CacheFacts.

Import LyricsManager.

(** *** The ordered dictionary *)

Lemma getitem_None (k : string) (d : ordered_dict) :
  getitem k d = None <-> ~ In k (keys d).
Proof.
  induction d as [|[k' v] d IH]; simpl; [tauto|].
  destruct (String.eqb_spec k k') as [->|Hne].
  - split; [discriminate|]. intros H. exfalso. apply H. left. reflexivity.
  - rewrite IH. split; [intros H [E|I]; [congruence|tauto]|tauto].
Qed.

Lemma getitem_Some_In (k : string) (d : ordered_dict) (v : list lyric_line) :
  getitem k d = Some v -> In k (keys d).
Proof.
  intros H. destruct (in_dec string_dec k (keys d)) as [|Hn]; [assumption|].
  apply getitem_None in Hn. congruence.
Qed.

Lemma setitem_absent (k : string) (v : list lyric_line) (d : ordered_dict) :
  getitem k d = None -> setitem k v d = d ++ [(k, v)].
Proof.
  induction d as [|[k' w] d IH]; simpl; [reflexivity|].
  destruct (String.eqb k k'); [discriminate|].
  intros H. rewrite (IH H). reflexivity.
Qed.

Lemma keys_app (d d' : ordered_dict) : keys (d ++ d') = keys d ++ keys d'.
Proof. apply map_app. Qed.

Lemma delitem_length (k : string) (d : ordered_dict) (v : list lyric_line) :
  getitem k d = Some v -> S (List.length (delitem k d)) = List.length d.
Proof.
  induction d as [|[k' w] d IH]; simpl; [discriminate|].
  destruct (String.eqb k k'); [reflexivity|].
  intros H. simpl. rewrite (IH H). reflexivity.
Qed.

Lemma delitem_incl (k x : string) (d : ordered_dict) :
  In x (keys (delitem k d)) -> In x (keys d).
Proof.
  induction d as [|[k' w] d IH]; simpl; [tauto|].
  destruct (String.eqb k k'); simpl; tauto.
Qed.

Lemma delitem_NoDup (k : string) (d : ordered_dict) :
  NoDup (keys d) ->
  NoDup (keys (delitem k d)) /\ ~ In k (keys (delitem k d)).
Proof.
  induction d as [|[k' w] d IH]; simpl; intros Hn.
  - split; [constructor|tauto].
  - inversion Hn as [|? ? Hk' Hd]; subst.
    destruct (String.eqb_spec k k') as [->|Hne]; [tauto|].
    destruct (IH Hd) as [H1 H2]. simpl. split.
    + constructor; [|exact H1]. intros H. apply Hk'. exact (delitem_incl _ _ _ H).
    + intros [E|I]; [congruence|tauto].
Qed.

Lemma delitem_sorted (R : string -> string -> Prop) (k : string)
    (d : ordered_dict) :
  StronglySorted R (keys d) -> StronglySorted R (keys (delitem k d)).
Proof.
  induction d as [|[k' w] d IH]; simpl; intros Hs; [constructor|].
  inversion Hs as [|? ? Hd Hall]; subst.
  destruct (String.eqb k k'); [exact Hd|]. simpl.
  constructor; [exact (IH Hd)|].
  rewrite Forall_forall in *. intros x Hx. apply Hall.
  exact (delitem_incl _ _ _ Hx).
Qed.

Lemma getitem_last (k : string) (v : list lyric_line) (d : ordered_dict) :
  ~ In k (keys d) -> getitem k (d ++ [(k, v)]) = Some v.
Proof.
  induction d as [|[k' w] d IH]; simpl; intros H.
  - rewrite String.eqb_refl. reflexivity.
  - destruct (String.eqb_spec k k') as [->|_]; [tauto|]. apply IH. tauto.
Qed.

Lemma getitem_app_other (k k' : string) (v : list lyric_line)
    (d : ordered_dict) :
  k <> k' -> getitem k (d ++ [(k', v)]) = getitem k d.
Proof.
  intros Hne. induction d as [|[x w] d IH]; simpl.
  - destruct (String.eqb_spec k k'); [congruence|reflexivity].
  - rewrite IH. reflexivity.
Qed.

Lemma getitem_delitem_other (k k' : string) (d : ordered_dict) :
  k <> k' -> getitem k (delitem k' d) = getitem k d.
Proof.
  intros Hne. induction d as [|[x w] d IH]; simpl; [reflexivity|].
  destruct (String.eqb_spec k' x) as [->|Hx].
  - destruct (String.eqb_spec k x); [congruence|reflexivity].
  - simpl. rewrite IH. reflexivity.
Qed.

(** *** Sorted lists of keys *)

Lemma sorted_snoc (R : string -> string -> Prop) (l : list string)
    (x : string) :
  StronglySorted R l -> Forall (fun y => R y x) l ->
  StronglySorted R (l ++ [x]).
Proof.
  induction 1 as [|a l Hl IH Ha]; intros Hx; simpl.
  - repeat constructor.
  - inversion Hx as [|? ? Hax Hlx]; subst.
    constructor; [exact (IH Hlx)|].
    apply Forall_app. split; [exact Ha|]. repeat constructor. exact Hax.
Qed.

Lemma sorted_change (R R' : string -> string -> Prop) (l : list string) :
  (forall a b, In a l -> In b l -> R a b -> R' a b) ->
  StronglySorted R l -> StronglySorted R' l.
Proof.
  intros Himp Hs. induction Hs as [|a l Hl IH Ha]; [constructor|].
  constructor.
  - apply IH. intros x y Hx Hy. apply Himp; right; assumption.
  - rewrite Forall_forall in *. intros x Hx.
    apply Himp; [left; reflexivity|right; exact Hx|exact (Ha x Hx)].
Qed.

Lemma rank_same (k : string) (h : list string) : rank k (k :: h) = 0%nat.
Proof. simpl. rewrite String.eqb_refl. reflexivity. Qed.

Lemma rank_other (k x : string) (h : list string) :
  k <> x -> rank k (x :: h) = S (rank k h).
Proof. intros H. simpl. destruct (String.eqb_spec k x); [congruence|reflexivity]. Qed.

(** A new use of [k] leaves the order among the other keys and makes [k]
    the most recent one. *)
Lemma sorted_after_use (h : list string) (k : string) (l : list string) :
  ~ In k l -> StronglySorted (older h) l ->
  StronglySorted (older (k :: h)) (l ++ [k]).
Proof.
  intros Hk Hs. apply sorted_snoc.
  - apply (sorted_change (older h)); [|exact Hs].
    intros a b Ha Hb Hab. unfold older in *.
    rewrite !rank_other by (intros ->; contradiction). lia.
  - rewrite Forall_forall. intros y Hy. unfold older.
    rewrite rank_same, rank_other by (intros ->; contradiction). lia.
Qed.

(** *** The three ways through [get_lyrics] *)

Lemma get_lyrics_hit (self : manager) (artist title : string) (r : reply)
    (v : list lyric_line) :
  getitem (cache_key artist title) (cache self) = Some v ->
  get_lyrics self artist title r
  = (Manager (delitem (cache_key artist title) (cache self)
              ++ [(cache_key artist title, v)]) (cache_size self), [], v).
Proof.
  intros H. unfold get_lyrics, move_to_end. rewrite H. reflexivity.
Qed.

Lemma get_lyrics_raise (self : manager) (artist title : string) (r : reply) :
  getitem (cache_key artist title) (cache self) = None ->
  snd (_fetch_lyrics artist title r) = None ->
  fst (fst (get_lyrics self artist title r)) = self /\
  snd (get_lyrics self artist title r) = not_found.
Proof.
  intros H Hf. unfold get_lyrics. rewrite H.
  destruct (_fetch_lyrics artist title r) as [ev [l|]]; [discriminate|].
  split; reflexivity.
Qed.

Lemma get_lyrics_store (self : manager) (artist title : string) (r : reply)
    (lyrics : list lyric_line) :
  getitem (cache_key artist title) (cache self) = None ->
  snd (_fetch_lyrics artist title r) = Some lyrics ->
  get_lyrics self artist title r
  = (Manager
       (if Z.of_nat (List.length (cache self ++ [(cache_key artist title, lyrics)]))
           >? cache_size self
        then tl (cache self ++ [(cache_key artist title, lyrics)])
        else cache self ++ [(cache_key artist title, lyrics)])
       (cache_size self),
     fst (_fetch_lyrics artist title r), lyrics).
Proof.
  intros H Hf. unfold get_lyrics, popitem_first. rewrite H.
  destruct (_fetch_lyrics artist title r) as [ev [l|]]; [|discriminate].
  simpl in Hf. injection Hf as ->. rewrite (setitem_absent _ _ _ H).
  reflexivity.
Qed.

(** A failing retrieval is answered by the not-found line, returned and
    not raised. *)
Lemma fetch_fails (artist title : string) (r : reply) :
  retrieval_fails r -> snd (_fetch_lyrics artist title r) = Some not_found.
Proof. intros [->|[->|[->| ->]]]; reflexivity. Qed.

Lemma cache_size_step (self : manager) (c : call) :
  cache_size (step self c) = cache_size self.
Proof.
  destruct c as [[artist title] r]. unfold step, get_lyrics.
  destruct (getitem _ _); [reflexivity|].
  destruct (_fetch_lyrics artist title r) as [ev [l|]]; reflexivity.
Qed.

Lemma cache_size_run (calls : list call) :
  forall self, cache_size (run self calls) = cache_size self.
Proof.
  induction calls as [|c calls IH]; intros self; [reflexivity|].
  unfold run in *. simpl. rewrite IH. apply cache_size_step.
Qed.

(** *** The invariant *)

Lemma cache_inv_init (capacity : Z) : 0 <= capacity -> cache_inv [] (init capacity).
Proof.
  intros H. unfold cache_inv; simpl. repeat split; try constructor. exact H.
Qed.

Lemma cache_inv_tl (h : list string) (d : ordered_dict) (n : Z) :
  NoDup (keys d) -> StronglySorted (older h) (keys d) ->
  Forall (fun k => In k h) (keys d) ->
  Z.of_nat (List.length d) <= n + 1 -> d <> [] ->
  cache_inv h (Manager (tl d) n).
Proof.
  intros Hn Hs Hf Hl Hd. destruct d as [|e d]; [congruence|].
  unfold cache_inv. simpl in *.
  inversion Hn; inversion Hs; inversion Hf; subst.
  repeat split; try assumption. lia.
Qed.

Lemma cache_inv_step (h : list string) (self : manager) (c : call) :
  cache_inv h self ->
  cache_inv (match used self c with Some k => k :: h | None => h end)
            (step self c).
Proof.
  intros (Hn & Hs & Hf & Hl). destruct c as [[artist title] r].
  unfold used, step, call_key.
  destruct (getitem (cache_key artist title) (cache self)) as [v|] eqn:Hg.
  - rewrite (get_lyrics_hit _ _ _ r _ Hg). cbn [fst].
    destruct (delitem_NoDup (cache_key artist title) _ Hn) as [Hn' Hk].
    unfold cache_inv. cbn [cache cache_size]. rewrite keys_app. cbn [keys map fst].
    repeat split.
    + apply NoDup_app; [exact Hn'|repeat constructor; simpl; tauto|].
      intros x Hx [<-|[]]. contradiction.
    + apply sorted_after_use; [exact Hk|]. apply delitem_sorted. exact Hs.
    + apply Forall_app. split; [|repeat constructor].
      rewrite Forall_forall in *. intros x Hx. right. apply Hf.
      exact (delitem_incl _ _ _ Hx).
    + rewrite length_app. simpl. rewrite Nat.add_1_r.
      rewrite (delitem_length _ _ _ Hg). exact Hl.
  - destruct (snd (_fetch_lyrics artist title r)) as [lyrics|] eqn:Hfetch.
    + rewrite (get_lyrics_store _ _ _ r _ Hg Hfetch). cbn [fst].
      pose proof (proj1 (getitem_None _ _) Hg) as Hk.
      set (d := cache self ++ [(cache_key artist title, lyrics)]).
      assert (Hn' : NoDup (keys d)).
      { subst d. rewrite keys_app.
        apply NoDup_app; [exact Hn|repeat constructor; simpl; tauto|].
        intros x Hx [<-|[]]. contradiction. }
      assert (Hs' : StronglySorted (older (cache_key artist title :: h)) (keys d)).
      { subst d. rewrite keys_app. apply sorted_after_use; assumption. }
      assert (Hf' : Forall (fun k => In k (cache_key artist title :: h)) (keys d)).
      { subst d. rewrite keys_app. apply Forall_app. split; [|repeat constructor].
        eapply Forall_impl; [|exact Hf]. intros x Hx. right. exact Hx. }
      assert (Hl' : Z.of_nat (List.length d) <= cache_size self + 1).
      { subst d. rewrite length_app. simpl. lia. }
      destruct (Z.gtb_spec (Z.of_nat (List.length d)) (cache_size self)) as [Hgt|Hle].
      * apply cache_inv_tl; try assumption.
        subst d. destruct (cache self); discriminate.
      * unfold cache_inv. cbn [cache cache_size]. repeat split; assumption.
    + destruct (get_lyrics_raise _ _ _ r Hg Hfetch) as [-> _].
      unfold cache_inv. repeat split; assumption.
Qed.

Lemma cache_inv_run (calls : list call) :
  forall h self, cache_inv h self ->
  cache_inv (history h self calls) (run self calls).
Proof.
  induction calls as [|c calls IH]; intros h self Hi; [exact Hi|].
  cbn [history]. unfold run. cbn [fold_left]. apply IH, cache_inv_step, Hi.
Qed.

(** *** Failed retrievals *)

Lemma getitem_after_store (k : string) (v : list lyric_line)
    (d : ordered_dict) (n : Z) :
  1 <= n -> getitem k d = None ->
  getitem k (if Z.of_nat (List.length (d ++ [(k, v)])) >? n
             then tl (d ++ [(k, v)]) else d ++ [(k, v)]) = Some v.
Proof.
  intros Hn Hg. apply getitem_None in Hg.
  destruct (Z.gtb_spec (Z.of_nat (List.length (d ++ [(k, v)]))) n) as [Hgt|_];
    [|apply getitem_last; exact Hg].
  destruct d as [|[k0 w] d]; [simpl in Hgt; lia|].
  simpl. apply getitem_last. simpl in Hg. tauto.
Qed.

(** C2, with the capacity it needs.  When the key is not cached and the
    retrieval fails (network error, timeout, error status, empty result),
    [get_lyrics] returns the not-found line and, with a capacity of one
    or more, leaves it in the cache under the key: the next call for the
    same identity is a hit that returns it without any request.  In the loop, a tick for an identity
    that is cached, or that is the one of the tick before, makes no
    request; and the tick of a failed retrieval leaves the not-found line
    cached and shown. *)
Theorem failed_retrieval_cached :
  (forall (self : manager) (artist title : string) (r : reply),
     1 <= cache_size self ->
     getitem (cache_key artist title) (cache self) = None ->
     retrieval_fails r ->
     snd (get_lyrics self artist title r) = not_found /\
     getitem (cache_key artist title) (cache (step self (artist, title, r)))
     = Some not_found /\
     forall r' : reply,
       snd (fst (get_lyrics (step self (artist, title, r)) artist title r')) = [] /\
       snd (get_lyrics (step self (artist, title, r)) artist title r') = not_found) /\
  (forall (st : RunLyrics.loop_state) (a : RunLyrics.answers)
          (artist title : string),
     truthy (RunLyrics.ans_artist a) = Some artist ->
     truthy (RunLyrics.ans_title a) = Some title ->
     getitem (cache_key artist title) (cache (RunLyrics.lyrics_mgr st)) <> None \/
     RunLyrics.last_track st = Some (cache_key artist title) ->
     tick_events st a = []) /\
  (forall (st : RunLyrics.loop_state) (a : RunLyrics.answers)
          (artist title : string),
     1 <= cache_size (RunLyrics.lyrics_mgr st) ->
     truthy (RunLyrics.ans_artist a) = Some artist ->
     truthy (RunLyrics.ans_title a) = Some title ->
     RunLyrics.last_track st <> Some (cache_key artist title) ->
     getitem (cache_key artist title) (cache (RunLyrics.lyrics_mgr st)) = None ->
     retrieval_fails (RunLyrics.ans_reply a) ->
     getitem (cache_key artist title)
             (cache (RunLyrics.lyrics_mgr (tick_state st a))) = Some not_found /\
     RunLyrics.lyrics_lines (tick_state st a) = not_found /\
     RunLyrics.last_track (tick_state st a) = Some (cache_key artist title)).
Proof.
  assert (A : forall (self : manager) (artist title : string) (r : reply),
     1 <= cache_size self ->
     getitem (cache_key artist title) (cache self) = None ->
     retrieval_fails r ->
     get_lyrics self artist title r
     = (step self (artist, title, r), fst (_fetch_lyrics artist title r), not_found)
     /\ getitem (cache_key artist title) (cache (step self (artist, title, r)))
        = Some not_found).
  { intros self artist title r Hcap Hmiss Hfail.
    pose proof (get_lyrics_store self artist title r not_found Hmiss
                  (fetch_fails artist title r Hfail)) as Hg.
    unfold step. rewrite Hg. cbn [fst snd cache]. split; [reflexivity|].
    apply getitem_after_store; assumption. }
  split; [|split].
  - intros self artist title r Hcap Hmiss Hfail.
    destruct (A self artist title r Hcap Hmiss Hfail) as [Hg Hc].
    rewrite Hg. cbn [snd]. repeat split; try exact Hc;
      rewrite (get_lyrics_hit _ _ _ r' _ Hc); reflexivity.
  - intros st a artist title Ha Ht Hor.
    unfold tick_events, RunLyrics.tick. rewrite Ha, Ht.
    destruct (RunLyrics.last_track st) as [k|] eqn:Hk.
    + destruct (String.eqb_spec (cache_key artist title) k) as [_|Hne];
        [reflexivity|].
      destruct Hor as [Hc|Hl]; [|congruence]. cbn [negb].
      destruct (getitem (cache_key artist title)
                  (cache (RunLyrics.lyrics_mgr st))) as [v|] eqn:Hv;
        [|congruence].
      rewrite (get_lyrics_hit _ _ _ _ _ Hv). reflexivity.
    + destruct Hor as [Hc|Hl]; [|discriminate].
      destruct (getitem (cache_key artist title)
                  (cache (RunLyrics.lyrics_mgr st))) as [v|] eqn:Hv;
        [|congruence].
      rewrite (get_lyrics_hit _ _ _ _ _ Hv). reflexivity.
  - intros st a artist title Hcap Ha Ht Hlast Hmiss Hfail.
    destruct (A _ artist title _ Hcap Hmiss Hfail) as [Hg Hc].
    unfold tick_state, RunLyrics.tick. rewrite Ha, Ht.
    assert (Hch : match RunLyrics.last_track st with
                  | Some k => negb (String.eqb (cache_key artist title) k)
                  | None => true
                  end = true).
    { destruct (RunLyrics.last_track st) as [k|]; [|reflexivity].
      destruct (String.eqb_spec (cache_key artist title) k); [congruence|reflexivity]. }
    rewrite Hch, Hg. cbn. repeat split. exact Hc.
Qed.

Lemma failed_retrieval_cached_witness :
  1 <= cache_size (init 50) /\
  getitem (cache_key "a" "x") (cache (init 50)) = None /\
  retrieval_fails Timeout /\
  snd (get_lyrics (init 50) "a" "x" Timeout) = not_found /\
  getitem (cache_key "a" "x") (cache (step (init 50) ("a", "x", Timeout)%string))
  = Some not_found /\
  forall r' : reply,
    snd (fst (get_lyrics (step (init 50) ("a", "x", Timeout)%string) "a" "x" r')) = [] /\
    snd (get_lyrics (step (init 50) ("a", "x", Timeout)%string) "a" "x" r') = not_found.
Proof.
  assert (H1 : 1 <= cache_size (init 50)) by (simpl; lia).
  assert (H2 : getitem (cache_key "a" "x") (cache (init 50)) = None)
    by reflexivity.
  assert (H3 : retrieval_fails Timeout) by (right; left; reflexivity).
  split; [exact H1|]. split; [exact H2|]. split; [exact H3|].
  exact (proj1 failed_retrieval_cached (init 50) "a"%string "x"%string
           Timeout H1 H2 H3).
Defined.

(** C2 as stated fails on a cache without capacity: the not-found line
    is stored and evicted by the same call, so that the next call for the
    same identity is a miss and asks the network again. *)
Lemma failed_retrieval_lost_without_capacity :
  ~ (forall (self : manager) (artist title : string) (r : reply),
       getitem (cache_key artist title) (cache self) = None ->
       retrieval_fails r ->
       getitem (cache_key artist title) (cache (step self (artist, title, r)))
       = Some not_found /\
       forall r' : reply,
         snd (fst (get_lyrics (step self (artist, title, r)) artist title r'))
         = []).
Proof.
  intros H.
  destruct (H (init 0) "a"%string "x"%string Timeout eq_refl
              (or_intror (or_introl eq_refl))) as [Hc _].
  discriminate Hc.
Qed.

(** A retrieval that raises, by contrast, leaves the cache as it was. *)
Lemma raised_retrieval_not_cached (self : manager) (artist title : string)
    (data : list track) :
  getitem (cache_key artist title) (cache self) = None ->
  step self (artist, title, Answer (NotATrack :: data)) = self.
Proof.
  intros H. unfold step.
  exact (proj1 (get_lyrics_raise self artist title
                  (Answer (NotATrack :: data)) H eq_refl)).
Qed.

(** *** Eviction *)

Lemma getitem_tl (k : string) (d : ordered_dict) :
  (forall e, hd_error d = Some e -> fst e <> k) ->
  getitem k (tl d) = getitem k d.
Proof.
  destruct d as [|[k0 w] d]; intros H; [reflexivity|]. simpl.
  destruct (String.eqb_spec k k0) as [->|_]; [|reflexivity].
  exfalso. exact (H (k0, w) eq_refl eq_refl).
Qed.

(** After a hit on a cache of capacity two or more, the key found
    survives whatever call comes next for another key. *)
Lemma hit_survives_next (self : manager) (artist title : string) (r : reply)
    (v : list lyric_line) (next : call) :
  NoDup (keys (cache self)) ->
  getitem (cache_key artist title) (cache self) = Some v ->
  2 <= cache_size self ->
  call_key next <> cache_key artist title ->
  getitem (cache_key artist title)
          (cache (step (step self (artist, title, r)) next)) = Some v.
Proof.
  intros Hn Hg Hcap Hne. set (key := cache_key artist title) in *.
  destruct (delitem_NoDup key _ Hn) as [Hn' Hk].
  unfold step at 2. rewrite (get_lyrics_hit _ _ _ r _ Hg). cbn [fst].
  fold key. set (d1 := delitem key (cache self) ++ [(key, v)]).
  assert (H1 : getitem key d1 = Some v) by (apply getitem_last; exact Hk).
  destruct next as [[artist' title'] r']. unfold call_key in Hne.
  set (key' := cache_key artist' title') in *.
  unfold step.
  destruct (getitem key' d1) as [v'|] eqn:Hg'.
  - rewrite (get_lyrics_hit (Manager d1 (cache_size self)) _ _ r' _ Hg'). cbn [fst cache].
    fold key'. rewrite getitem_app_other, getitem_delitem_other; auto.
  - destruct (snd (_fetch_lyrics artist' title' r')) as [l|] eqn:Hf.
    + rewrite (get_lyrics_store (Manager d1 (cache_size self)) _ _ r' _ Hg' Hf).
      cbn [fst cache cache_size]. fold key'.
      assert (H2 : getitem key (d1 ++ [(key', l)]) = Some v)
        by (rewrite getitem_app_other; auto).
      destruct (Z.gtb_spec (Z.of_nat (List.length (d1 ++ [(key', l)])))
                  (cache_size self)) as [Hgt|_]; [|exact H2].
      rewrite getitem_tl; [exact H2|].
      subst d1. rewrite !length_app in Hgt. cbn [List.length] in Hgt.
      destruct (delitem key (cache self)) as [|e d'] eqn:Hd;
        [simpl in Hgt; lia|].
      intros e0 [= <-] He. apply Hk. left. exact He.
    + destruct (get_lyrics_raise (Manager d1 (cache_size self)) _ _ r' Hg' Hf) as [-> _].
      exact H1.
Qed.

(** C8, with the condition the last part needs.  After any sequence of
    calls on a cache of capacity one or more: the number of entries is
    within the capacity; storing under a new key appends the entry and,
    when the cache was full, removes exactly the first entry, which was
    used less recently than every entry that stays; a hit returns the
    stored lines without any request and moves the entry to the most
    recent end, and with a capacity of two or more the entry is still
    there after the next call for another key. *)
Theorem lru_eviction (capacity : Z) (calls : list call) :
  1 <= capacity ->
  let self := run (init capacity) calls in
  let h := history [] (init capacity) calls in
  Z.of_nat (List.length (cache self)) <= capacity /\
  (forall (artist title : string) (r : reply) (lyrics : list lyric_line),
     getitem (cache_key artist title) (cache self) = None ->
     snd (_fetch_lyrics artist title r) = Some lyrics ->
     (Z.of_nat (List.length (cache self)) < capacity ->
      cache (step self (artist, title, r))
      = cache self ++ [(cache_key artist title, lyrics)]) /\
     (Z.of_nat (List.length (cache self)) = capacity ->
      exists victim rest,
        cache self = victim :: rest /\
        cache (step self (artist, title, r))
        = rest ++ [(cache_key artist title, lyrics)] /\
        Forall (older h (fst victim)) (keys rest))) /\
  (forall (artist title : string) (r : reply) (v : list lyric_line),
     getitem (cache_key artist title) (cache self) = Some v ->
     get_lyrics self artist title r
     = (Manager (delitem (cache_key artist title) (cache self)
                 ++ [(cache_key artist title, v)]) capacity, [], v) /\
     forall next : call,
       2 <= capacity ->
       call_key next <> cache_key artist title ->
       getitem (cache_key artist title)
               (cache (step (step self (artist, title, r)) next)) = Some v).
Proof.
  intros Hcap. cbv zeta.
  pose proof (cache_inv_run calls [] (init capacity)
                (cache_inv_init capacity ltac:(lia))) as Hinv.
  pose proof (cache_size_run calls (init capacity)) as Hsize.
  cbn [init cache_size] in Hsize. revert Hinv Hsize.
  generalize (history [] (init capacity) calls) as h.
  generalize (run (init capacity) calls) as self.
  intros self h (Hn & Hs & _ & Hl) Hsize.
  rewrite Hsize in Hl. split; [exact Hl|]. split.
  - intros artist title r lyrics Hmiss Hf.
    unfold step. rewrite (get_lyrics_store _ _ _ r _ Hmiss Hf).
    cbn [fst cache]. rewrite Hsize, length_app. cbn [List.length]. split.
    + intros Hlt.
      destruct (Z.gtb_spec (Z.of_nat (List.length (cache self) + 1)) capacity);
        [lia|reflexivity].
    + intros Heq.
      destruct (Z.gtb_spec (Z.of_nat (List.length (cache self) + 1)) capacity);
        [|lia].
      destruct (cache self) as [|victim rest] eqn:Hc; [simpl in Heq; lia|].
      exists victim, rest. repeat split.
      simpl in Hs. inversion Hs; subst. assumption.
  - intros artist title r v Hhit. split.
    + rewrite (get_lyrics_hit _ _ _ r _ Hhit), Hsize. reflexivity.
    + intros next Hcap2 Hne. apply hit_survives_next; try assumption.
      rewrite Hsize. exact Hcap2.
Qed.

Lemma lru_eviction_witness :
  1 <= 2 /\
  Z.of_nat (List.length (cache (run (init 2) [song_a; song_b; song_a]))) <= 2 /\
  (exists victim rest,
     cache (run (init 2) [song_a; song_b; song_a]) = victim :: rest /\
     cache (step (run (init 2) [song_a; song_b; song_a]) song_c)
     = rest ++ [(call_key song_c, not_found)] /\
     fst victim = call_key song_b /\
     Forall (older (history [] (init 2) [song_a; song_b; song_a]) (fst victim))
            (keys rest)) /\
  getitem (call_key song_a)
          (cache (step (step (run (init 2) [song_a; song_b]) song_a) song_c))
  = Some not_found.
Proof.
  assert (H : 1 <= 2) by lia. split; [exact H|].
  destruct (lru_eviction 2 [song_a; song_b; song_a] H) as (Ha & Hb & _).
  split; [exact Ha|]. split.
  - destruct (Hb "c"%string "z"%string (Answer []) not_found eq_refl eq_refl)
      as [_ Hfull].
    destruct (Hfull eq_refl) as (victim & rest & Hc & Hstep & Hold).
    exists victim, rest. repeat split; try assumption.
    injection Hc as <- _. reflexivity.
  - destruct (lru_eviction 2 [song_a; song_b] H) as (_ & _ & Hhit).
    destruct (Hhit "a"%string "x"%string (Answer []) not_found eq_refl)
      as [_ Hnext].
    apply (Hnext song_c); [lia|discriminate].
Defined.

(** C8 as stated fails at capacity one: the key just found is the one
    evicted when the next key is stored. *)
Lemma hit_key_evicted_at_capacity_one :
  ~ (forall (capacity : Z) (calls : list call) (c next : call),
       1 <= capacity ->
       getitem (call_key c) (cache (run (init capacity) calls)) <> None ->
       call_key next <> call_key c ->
       getitem (call_key c)
               (cache (step (step (run (init capacity) calls) c) next))
       <> None).
Proof.
  intros H.
  apply (H 1 [song_a] song_a song_b); try lia; try discriminate.
  reflexivity.
Qed.

End CacheFacts.

(** * Further properties of the code *)

(** ** The window, for every size *)

Module WindowBounds.

Import WindowManager.

(** X1. Whatever the size, the index and the number of lines, the window
    starts at 0 or later and stops at the number of lines or earlier: no
    index of [range(start, end)] is negative or past the last line. *)
Theorem get_indices_inside (size idx total : Z) :
  0 <= fst (get_indices size idx total) /\
  snd (get_indices size idx total) <= total.
Proof.
  unfold get_indices. destruct (total <=? size); simpl; lia.
Qed.

(** X2. For a size above zero the active index, when it is an index of
    the sequence, lies inside the window. *)
Theorem get_indices_holds_active (size idx total : Z) :
  0 < size -> 0 <= idx < total ->
  fst (get_indices size idx total) <= idx < snd (get_indices size idx total).
Proof.
  intros Hsize Hidx. unfold get_indices.
  destruct (Z.leb_spec total size); simpl; [lia|].
  assert (Hhalf : 0 <= size / 2 < size).
  { split; [apply Z.div_pos; lia|apply Z.div_lt; lia]. }
  lia.
Qed.

Lemma get_indices_holds_active_witness :
  0 < 10 /\ 0 <= 98 < 100 /\
  fst (get_indices 10 98 100) <= 98 < snd (get_indices 10 98 100).
Proof.
  split; [lia|]. split; [lia|].
  apply (get_indices_holds_active 10 98 100); lia.
Defined.

(** X3. The window never moves back when the active index advances: both
    of its ends grow with the index, for every size and number of lines. *)
Theorem get_indices_monotone (size idx idx' total : Z) :
  idx <= idx' ->
  fst (get_indices size idx total) <= fst (get_indices size idx' total) /\
  snd (get_indices size idx total) <= snd (get_indices size idx' total).
Proof.
  intros H. unfold get_indices. destruct (total <=? size); simpl; lia.
Qed.

Lemma get_indices_monotone_witness :
  2 <= 50 /\
  fst (get_indices 10 2 100) <= fst (get_indices 10 50 100) /\
  snd (get_indices 10 2 100) <= snd (get_indices 10 50 100).
Proof.
  split; [lia|]. apply (get_indices_monotone 10 2 50 100). lia.
Defined.

(** X4. With more lines than the size, the window has three regimes: it
    is [(0, size)] while the index is at most half the size (the left
    clamp), it is [(total - size, total)] once the index is within the
    last [size - half] lines (the right clamp), and in between it starts
    exactly half the size before the index. *)
Theorem get_indices_regimes (size idx total : Z) :
  0 <= size < total ->
  (idx <= size / 2 -> get_indices size idx total = (0, size)) /\
  (total - size + size / 2 <= idx ->
   get_indices size idx total = (total - size, total)) /\
  (size / 2 <= idx <= total - size + size / 2 ->
   get_indices size idx total = (idx - size / 2, idx - size / 2 + size)).
Proof.
  intros Hsize. unfold get_indices.
  destruct (Z.leb_spec total size) as [Hle|Hlt]; [lia|].
  assert (Hhalf : 0 <= size / 2 <= size).
  { split; [apply Z.div_pos; lia|]. apply Z.div_le_upper_bound; lia. }
  repeat split; intros Hidx; f_equal; lia.
Qed.

Lemma get_indices_regimes_witness :
  0 <= 10 < 100 /\ 10 / 2 <= 50 <= 100 - 10 + 10 / 2 /\
  get_indices 10 50 100 = (50 - 10 / 2, 50 - 10 / 2 + 10).
Proof.
  assert (H : 0 <= 10 < 100) by lia.
  assert (H' : 10 / 2 <= 50 <= 100 - 10 + 10 / 2) by (vm_compute; split; discriminate).
  split; [exact H|]. split; [exact H'|].
  exact (proj2 (proj2 (get_indices_regimes 10 50 100 H)) H').
Defined.

End WindowBounds.

(** ** The active line, for every sequence *)

Module LocatorBounds.

Import PyFloat PyFloatFacts LocatorFacts.

Lemma first_active_first (l : list lyric_line) (t : float) :
  forall i j, first_active i l t = Some j ->
  forall k : nat, i + Z.of_nat k < j ->
  le (offset_at l k) t && lt t (offset_at l (S k)) = false.
Proof.
  induction l as [|a l IH]; intros i j H k Hk; [discriminate|].
  destruct l as [|b l]; [discriminate|].
  cbn [first_active] in H.
  destruct (le (fst a) t && lt t (fst b)) eqn:Hc.
  - injection H as <-. lia.
  - destruct k as [|k]; [exact Hc|].
    rewrite !offset_at_cons. apply (IH (i + 1) j H). lia.
Qed.

(** X5. On a sequence that is not empty the index computed is an index
    of the sequence, whatever the order of the lines and whatever the
    time, a NaN included; on the empty sequence it is -1. *)
Theorem active_index_in_range (lyrics : list lyric_line) (t : float) :
  (lyrics <> [] ->
   0 <= active_index lyrics t < Z.of_nat (List.length lyrics)) /\
  active_index [] t = -1.
Proof.
  split; [|reflexivity]. intros Hne. unfold active_index.
  destruct (first_active 0 lyrics t) as [j|] eqn:Hf.
  - apply first_active_Some in Hf as (k & -> & Hk & _). lia.
  - destruct lyrics; [congruence|]. simpl List.length. lia.
Qed.

Lemma active_index_in_range_witness :
  three_lines <> [] /\
  0 <= active_index three_lines S754_nan < Z.of_nat (List.length three_lines).
Proof.
  assert (H : three_lines <> []) by discriminate.
  split; [exact H|].
  exact (proj1 (active_index_in_range three_lines S754_nan) H).
Defined.

(** X6. When the index computed is not the last one, the loop stopped
    there: the time is at or after the offset of that line and strictly
    before the offset of the next, and no earlier line is in that case.
    No order of the lines is assumed. *)
Theorem active_index_break (lyrics : list lyric_line) (t : float) (i : nat) :
  active_index lyrics t = Z.of_nat i -> (S i < List.length lyrics)%nat ->
  le (offset_at lyrics i) t = true /\
  lt t (offset_at lyrics (S i)) = true /\
  forall k : nat, (k < i)%nat ->
    le (offset_at lyrics k) t && lt t (offset_at lyrics (S k)) = false.
Proof.
  unfold active_index. intros Hi Hlen.
  destruct (first_active 0 lyrics t) as [j|] eqn:Hf; [|lia]. subst j.
  pose proof (first_active_first lyrics t 0 _ Hf) as Hfirst.
  apply first_active_Some in Hf as (k & Hk & _ & H1 & H2).
  assert (k = i) by lia. subst k. repeat split; try assumption.
  intros k Hki. apply Hfirst. lia.
Qed.

Lemma active_index_break_witness :
  active_index three_lines (lit 5) = Z.of_nat 0 /\
  (1 < List.length three_lines)%nat /\
  le (offset_at three_lines 0) (lit 5) = true /\
  lt (lit 5) (offset_at three_lines 1) = true /\
  forall k : nat, (k < 0)%nat ->
    le (offset_at three_lines k) (lit 5)
    && lt (lit 5) (offset_at three_lines (S k)) = false.
Proof.
  assert (H1 : active_index three_lines (lit 5) = Z.of_nat 0) by reflexivity.
  assert (H2 : (1 < List.length three_lines)%nat) by (simpl; lia).
  split; [exact H1|]. split; [exact H2|].
  exact (active_index_break three_lines (lit 5) 0 H1 H2).
Defined.

(** X7. On a sorted sequence, from the first offset on, the active line
    never moves back as the time advances. *)
Theorem active_index_monotone (lyrics : list lyric_line) (t t' : float) :
  lyrics <> [] -> non_decreasing lyrics ->
  le (offset_at lyrics 0) t = true -> le t t' = true ->
  active_index lyrics t <= active_index lyrics t'.
Proof.
  intros Hne Hs H0 Htt.
  assert (H0' : le (offset_at lyrics 0) t' = true)
    by (apply (le_trans _ t); assumption).
  destruct (active_index_reached lyrics t Hne Hs H0) as (i & -> & Hi & [Hr1 Hr2] & _).
  destruct (active_index_reached lyrics t' Hne Hs H0') as (i' & -> & _ & _ & Hmax).
  apply inj_le, Hmax; [exact Hi|]. split; [|exact Hr2].
  apply (le_trans _ t); assumption.
Qed.

Lemma active_index_monotone_witness :
  three_lines <> [] /\ non_decreasing three_lines /\
  le (offset_at three_lines 0) (lit 5) = true /\ le (lit 5) (lit 25) = true /\
  active_index three_lines (lit 5) <= active_index three_lines (lit 25).
Proof.
  split; [discriminate|]. split; [repeat constructor|].
  split; [reflexivity|]. split; [reflexivity|].
  apply (active_index_monotone three_lines (lit 5) (lit 25)).
  - discriminate.
  - repeat constructor.
  - reflexivity.
  - reflexivity.
Defined.

End LocatorBounds.

(** ** The panel *)

Module PanelFacts.

Import WindowManager.

Lemma flat_map_singletons {A B : Type} (f : A -> list B) (g : A -> B)
    (l : list A) :
  (forall x, In x l -> f x = [g x]) -> flat_map f l = map g l.
Proof.
  induction l as [|a l IH]; intros H; [reflexivity|]. simpl.
  rewrite (H a (or_introl eq_refl)), IH; [reflexivity|].
  intros x Hx. apply H. right. exact Hx.
Qed.

Lemma range_In (start stop i : Z) :
  In i (range start stop) -> start <= i < stop.
Proof.
  unfold range. rewrite in_map_iff. intros (k & <- & Hk).
  apply in_seq in Hk. lia.
Qed.

Lemma range_length (start stop : Z) :
  start <= stop -> Z.of_nat (List.length (range start stop)) = stop - start.
Proof. intros H. unfold range. rewrite length_map, length_seq. lia. Qed.

Lemma style_of_current (i idx : Z) : style_of i idx = Current <-> i = idx.
Proof.
  unfold style_of. destruct (Z.eqb_spec i idx) as [->|Hne]; [tauto|].
  split; [|tauto]. destruct (Z.abs (i - idx) =? 1); discriminate.
Qed.

(** X8. For lyrics that are not empty and a size above zero, the panel
    shows the lines of the window in order, each with its own text: as
    many lines as the size, or all of them when there are fewer.  The
    active line is among them, and it is the only one in the style of the
    current line. *)
Theorem render_panel_content (lyrics : list lyric_line) (t : PyFloat.float)
    (artist title : string) (size : Z) :
  lyrics <> [] -> 0 < size ->
  let p := render_panel lyrics t artist title size in
  panel_idx p = active_index lyrics t /\
  panel_content p
  = map (fun i => (style_of i (panel_idx p), text_at lyrics i))
        (range (fst (panel_window p)) (snd (panel_window p))) /\
  Z.of_nat (List.length (panel_content p))
  = Z.min size (Z.of_nat (List.length lyrics)) /\
  fst (panel_window p) <= panel_idx p < snd (panel_window p) /\
  (forall i, style_of i (panel_idx p) = Current <-> i = panel_idx p).
Proof.
  intros Hne Hsize. cbv zeta. unfold render_panel.
  assert (Hidx : 0 <= active_index lyrics t < Z.of_nat (List.length lyrics)).
  { unfold active_index.
    destruct (first_active 0 lyrics t) as [j|] eqn:Hf.
    - apply LocatorFacts.first_active_Some in Hf as (k & -> & Hk & _). lia.
    - destruct lyrics; [congruence|]. simpl List.length. lia. }
  remember (active_index lyrics t) as idx eqn:Eidx.
  remember (Z.of_nat (List.length lyrics)) as total eqn:Htotal.
  assert (Hw : 0 <= fst (get_indices size idx total)
               /\ snd (get_indices size idx total) <= total
               /\ fst (get_indices size idx total) <= idx
                  < snd (get_indices size idx total)
               /\ snd (get_indices size idx total)
                  - fst (get_indices size idx total) = Z.min size total).
  { unfold get_indices. destruct (Z.leb_spec total size); simpl; [lia|].
    assert (0 <= size / 2 < size)
      by (split; [apply Z.div_pos; lia|apply Z.div_lt; lia]).
    lia. }
  destruct Hw as (Hlo & Hhi & Hin & Hlen).
  destruct (get_indices size idx total) as [start stop]. cbn [fst snd] in *.
  cbn [panel_idx panel_content panel_window fst snd].
  assert (Hc : flat_map
                 (fun i => match nth_error lyrics (Z.to_nat i) with
                           | Some (_, line) => [(style_of i idx, line)]
                           | None => []
                           end) (range start stop)
               = map (fun i => (style_of i idx, text_at lyrics i))
                     (range start stop)).
  { apply flat_map_singletons. intros i Hi. apply range_In in Hi.
    assert (Hn : (Z.to_nat i < List.length lyrics)%nat) by lia.
    unfold text_at.
    rewrite (nth_error_nth' lyrics (S754_nan, []) Hn).
    destruct (nth (Z.to_nat i) lyrics (S754_nan, [])). reflexivity. }
  rewrite Hc. split; [reflexivity|]. split; [reflexivity|].
  split; [rewrite length_map, range_length; lia|].
  split; [lia|]. intros i. apply style_of_current.
Qed.

Lemma render_panel_content_witness :
  three_lines <> [] /\ 0 < 2 /\
  panel_content (render_panel three_lines (PyFloat.lit 10) "a" "t" 2)
  = [(Near, PyStr.u "a"); (Current, PyStr.u "b")].
Proof.
  assert (H1 : three_lines <> []) by discriminate.
  assert (H2 : 0 < 2) by lia.
  split; [exact H1|]. split; [exact H2|].
  destruct (render_panel_content three_lines (PyFloat.lit 10) "a" "t" 2 H1 H2)
    as (_ & Hc & _).
  rewrite Hc. reflexivity.
Defined.

End PanelFacts.

(** ** The lines the parser returns *)

Module LineFacts.

Import PyFloat PyFloatFacts PyStr TimestampRe LyricsManager.
Import SortFacts ParserFacts PatternFacts RecordFacts.

Lemma nonneg_le_zero (f : PyFloat.float) : nonneg f = true -> le zero f = true.
Proof.
  destruct f as [[]|[]| |[] m e]; simpl; try congruence; intros _; reflexivity.
Qed.

Lemma emit_inv (lyric : str) (ms : list rematch) (ln : lyric_line) :
  In ln (emit lyric ms) ->
  exists m off, In m ms /\ token_offset m = Some off /\ ln = (off, lyric).
Proof.
  induction ms as [|m ms IH]; intros H; [destruct H|].
  cbn [emit] in H. destruct (token_offset m) as [off|] eqn:Ho.
  - destruct H as [<-|H].
    + exists m, off. repeat split; [left; reflexivity|exact Ho].
    + destruct (IH H) as (m' & off' & Hm & Ho' & ->).
      exists m', off'. repeat split; [right; exact Hm|exact Ho'].
  - destruct (IH H) as (m' & off' & Hm & Ho' & ->).
    exists m', off'. repeat split; [right; exact Hm|exact Ho'].
Qed.

Lemma collected_iff (text : str) (ln : lyric_line) :
  In ln (collected text) <->
  exists line m off,
    In line (splitlines text) /\ In m (finditer line) /\
    token_offset m = Some off /\ ln = (off, trailing_text line).
Proof.
  unfold collected. rewrite in_flat_map. split.
  - intros (line & Hline & Hin). rewrite record_lines_emit in Hin.
    destruct (emit_inv _ _ _ Hin) as (m & off & Hm & Ho & ->).
    exists line, m, off. repeat split; assumption.
  - intros (line & m & off & Hline & Hm & Ho & ->).
    exists line. split; [exact Hline|].
    rewrite record_lines_emit. apply (emit_In _ _ m); assumption.
Qed.

Lemma parse_lrc_In (text : str) (ln : lyric_line) :
  In ln (parse_lrc text) <->
  (collected text = [] /\ ln = (zero, no_parse_text)) \/ In ln (collected text).
Proof.
  unfold parse_lrc. destruct (collected text) as [|x l] eqn:Hc.
  - simpl. split; [intros [<-|[]]; left; split; reflexivity|].
    intros [[_ ->]|[]]. left. reflexivity.
  - split.
    + intros H. right.
      apply (Permutation_in _ (Permutation_sym (sorted_perm (x :: l)))), H.
    + intros [[H _]|H]; [discriminate|].
      apply (Permutation_in _ (sorted_perm (x :: l))), H.
Qed.

(** X9. The lines of the result are exactly the lines the tokens give:
    a line is in the result if and only if it is the sentinel of a text
    that gives no line, or it pairs the offset of a token that converts
    with the trimmed trailing text of the record of that token.  The
    parser drops no such line and invents none. *)
Theorem parse_lrc_lines (text : str) (ln : lyric_line) :
  In ln (parse_lrc text) <->
  (collected text = [] /\ ln = (zero, no_parse_text)) \/
  exists line m off,
    In line (splitlines text) /\ In m (finditer line) /\
    token_offset m = Some off /\ ln = (off, trailing_text line).
Proof. rewrite parse_lrc_In, collected_iff. reflexivity. Qed.

Lemma parse_lrc_lines_witness :
  In (lit 1, u "hi")
     (parse_lrc (u "[0:01.0]" ++ ideographic_space :: u "hi ")).
Proof.
  apply (proj2 (parse_lrc_lines (u "[0:01.0]" ++ ideographic_space :: u "hi ")
                  (lit 1, u "hi"))).
  right. exists (u "[0:01.0]" ++ ideographic_space :: u "hi "),
                (Match 0 8 (u "0") (u "01.0")), (lit 1).
  repeat split; left; reflexivity.
Defined.

(** What holds of the sentinel and of every line a token gives holds of
    every line of the result. *)
Lemma parse_lrc_Forall (P : lyric_line -> Prop) (text : str) :
  P (zero, no_parse_text) ->
  (forall line m off,
     In line (splitlines text) -> In m (finditer line) ->
     token_offset m = Some off -> P (off, trailing_text line)) ->
  Forall P (parse_lrc text).
Proof.
  intros Hs Hl. rewrite Forall_forall. intros ln Hln.
  apply parse_lrc_In in Hln as [[_ ->]|Hln]; [exact Hs|].
  apply collected_iff in Hln as (line & m & off & H1 & H2 & H3 & ->).
  exact (Hl line m off H1 H2 H3).
Qed.

(** X10. No offset of the result is negative or a NaN: each is at or
    after [0.0] in the order of floats. *)
Theorem parse_lrc_offsets_nonneg (text : str) :
  Forall (fun ln => le zero (fst ln) = true) (parse_lrc text).
Proof.
  apply parse_lrc_Forall; [reflexivity|].
  intros line m off _ _ Ho. apply nonneg_le_zero.
  exact (token_offset_nonneg m off Ho).
Qed.

(** *** Trimmed texts *)

Lemma lstrip_start (s : str) : starts_with_space (lstrip s) = false.
Proof.
  induction s as [|c s IH]; [reflexivity|]. simpl.
  destruct (is_space c) eqn:Hc; [exact IH|]. simpl. exact Hc.
Qed.

Lemma rstrip_start (s : str) :
  starts_with_space s = false -> starts_with_space (rstrip s) = false.
Proof.
  destruct s as [|c s]; [reflexivity|]. simpl. intros Hc.
  destruct (rstrip s); [rewrite Hc|]; simpl; auto.
Qed.

Lemma rstrip_end (s : str) : ends_with_space (rstrip s) = false.
Proof.
  induction s as [|c s IH]; [reflexivity|]. simpl.
  destruct (rstrip s) as [|c' r] eqn:Hr.
  - destruct (is_space c) eqn:Hc; [reflexivity|]. simpl. exact Hc.
  - exact IH.
Qed.

Lemma strip_trimmed (s : str) :
  starts_with_space (strip s) = false /\ ends_with_space (strip s) = false.
Proof.
  unfold strip. split; [apply rstrip_start, lstrip_start|apply rstrip_end].
Qed.

(** X11. No text of the result starts or ends with white space. *)
Theorem parse_lrc_texts_trimmed (text : str) :
  Forall (fun ln => starts_with_space (snd ln) = false /\
                    ends_with_space (snd ln) = false) (parse_lrc text).
Proof.
  apply parse_lrc_Forall; [split; reflexivity|].
  intros line m off _ _ _. apply strip_trimmed.
Qed.

End LineFacts.

(** ** The matches of a line *)

Module MatchFacts.

Import PyStr TimestampRe.
Import PatternFacts.

Lemma match_here_token (s g1 g2 : str) (len : nat) :
  match_here s = Some (g1, g2, len) ->
  exists rest, s = token_text (Match 0 len g1 g2) ++ rest /\
               len = List.length (token_text (Match 0 len g1 g2)).
Proof.
  intros H. apply match_here_spec in H as (_ & rest & -> & Hlen).
  exists rest. split; [reflexivity|exact Hlen].
Qed.

(** Every match reported from position [pos] on lies in the text scanned,
    [pos] characters to the left of where it is reported. *)
Lemma finditer_from_occurs (s : str) :
  forall skip pos m, In m (finditer_from skip pos s) ->
  exists pre rest : str,
    s = pre ++ token_text m ++ rest /\
    m_start m = (pos + List.length pre)%nat /\
    m_end m = (m_start m + List.length (token_text m))%nat /\
    (skip <= List.length pre)%nat.
Proof.
  induction s as [|c s IH]; intros skip pos m H; [destruct H|].
  assert (Hrec : forall k, In m (finditer_from k (S pos) s) ->
            exists pre rest : str,
              c :: s = pre ++ token_text m ++ rest /\
              m_start m = (pos + List.length pre)%nat /\
              m_end m = (m_start m + List.length (token_text m))%nat /\
              (S k <= List.length pre)%nat).
  { intros k Hk. destruct (IH _ _ _ Hk) as (pre & rest & -> & H1 & H2 & H3).
    exists (c :: pre), rest. cbn [app List.length].
    repeat split; lia. }
  cbn [finditer_from] in H. destruct skip as [|k]; [|exact (Hrec k H)].
  destruct (match_here (c :: s)) as [[[g1 g2] len]|] eqn:Hm.
  - destruct H as [<-|H].
    + apply match_here_token in Hm as (rest & Hs & Hlen).
      exists [], rest. cbn [app List.length m_start m_end].
      unfold token_text in *. cbn [group1 group2] in *.
      repeat split; try lia. exact Hs.
    + destruct (Hrec _ H) as (pre & rest & H0 & H1 & H2 & H3).
      exists pre, rest. repeat split; try assumption. lia.
  - destruct (Hrec _ H) as (pre & rest & H0 & H1 & H2 & H3).
    exists pre, rest. repeat split; try assumption. lia.
Qed.

(** X12. Every match of [finditer] is a real occurrence: the line reads
    some text, then the bracketed token made of the two groups, then the
    rest; the match starts and ends exactly where this token does, and
    its groups are digits, and digits around a point. *)
Theorem finditer_sound (line : str) (m : rematch) :
  In m (finditer line) -> occurs_in line m /\ well_formed m.
Proof.
  intros H. split; [|exact (finditer_from_well_formed line 0 0 m H)].
  destruct (finditer_from_occurs line 0 0 m H) as (pre & rest & H0 & H1 & H2 & _).
  exists pre, rest. repeat split; [exact H0|exact H1|]. rewrite H2, H1. reflexivity.
Qed.

Lemma finditer_sound_witness :
  In (Match 1 9 (u "0") (u "01.0")) (finditer accented_record) /\
  occurs_in accented_record (Match 1 9 (u "0") (u "01.0")) /\
  well_formed (Match 1 9 (u "0") (u "01.0")).
Proof.
  assert (H : In (Match 1 9 (u "0") (u "01.0")) (finditer accented_record))
    by (left; reflexivity).
  split; [exact H|].
  exact (finditer_sound accented_record (Match 1 9 (u "0") (u "01.0")) H).
Defined.

Lemma token_text_length (m : rematch) : (3 <= List.length (token_text m))%nat.
Proof. unfold token_text. rewrite bracketed_length. lia. Qed.

Lemma finditer_from_ordered (s : str) :
  forall skip pos,
    Forall (fun m => (pos + skip <= m_start m)%nat) (finditer_from skip pos s) /\
    StronglySorted (fun a b => (m_end a <= m_start b)%nat)
                   (finditer_from skip pos s).
Proof.
  induction s as [|c s IH]; intros skip pos; [split; constructor|].
  cbn [finditer_from]. destruct skip as [|k].
  - destruct (match_here (c :: s)) as [[[g1 g2] len]|] eqn:Hm.
    + destruct (IH (len - 1)%nat (S pos)) as [Hf Hs].
      apply match_here_token in Hm as (rest & _ & Hlen).
      pose proof (token_text_length (Match 0 len g1 g2)) as H4.
      split.
      * constructor; [cbn; lia|].
        eapply Forall_impl; [|exact Hf]. cbn. intros m Hge. lia.
      * constructor; [exact Hs|].
        eapply Forall_impl; [|exact Hf]. cbn. intros m Hge. lia.
    + destruct (IH 0%nat (S pos)) as [Hf Hs]. split; [|exact Hs].
      eapply Forall_impl; [|exact Hf]. cbn. intros m Hge. lia.
  - destruct (IH k (S pos)) as [Hf Hs]. split; [|exact Hs].
    eapply Forall_impl; [|exact Hf]. cbn. intros m Hge. lia.
Qed.

(** X13. The matches of a line come in the order of the line and do not
    overlap: each ends at or before the start of every later one; none is
    empty and none passes the end of the line. *)
Theorem finditer_disjoint (line : str) :
  StronglySorted (fun a b => (m_end a <= m_start b)%nat) (finditer line) /\
  Forall (fun m => (m_start m < m_end m <= List.length line)%nat)
         (finditer line).
Proof.
  split; [exact (proj2 (finditer_from_ordered line 0 0))|].
  rewrite Forall_forall. intros m Hm.
  destruct (finditer_from_occurs line 0 0 m Hm) as (pre & rest & H0 & H1 & H2 & _).
  pose proof (token_text_length m) as H4.
  rewrite H0 at 1. rewrite !length_app. lia.
Qed.

(** *** Finding a token *)

Lemma match_here_found (g1 ip fp rest : str) :
  all_digits g1 = true -> g1 <> [] ->
  all_digits ip = true -> ip <> [] ->
  all_digits fp = true -> fp <> [] ->
  match_here (bracketed g1 (seconds ip fp) ++ rest)
  = Some (g1, seconds ip fp,
          (List.length g1 + List.length ip + List.length fp + 4)%nat).
Proof.
  intros H1 N1 H2 N2 H3 N3. unfold match_here. app_norm.
  rewrite expect_here.
  rewrite (digits1_app g1 (ch ":") _ H1 N1 eq_refl), expect_here.
  rewrite (digits1_app ip (ch ".") _ H2 N2 eq_refl), expect_here.
  rewrite (digits1_app fp (ch "]") _ H3 N3 eq_refl), expect_here.
  reflexivity.
Qed.

(** The characters of the match found last are passed over. *)
Lemma finditer_from_skip (a rest : str) :
  forall pos,
    finditer_from (List.length a) pos (a ++ rest)
    = finditer_from 0 (pos + List.length a) rest.
Proof.
  induction a as [|c a IH]; intros pos; cbn [app List.length].
  - rewrite Nat.add_0_r. destruct rest; reflexivity.
  - cbn [finditer_from]. rewrite IH. f_equal. lia.
Qed.

(** The matches of a line that holds a token after a text without opening
    bracket: this token, then the matches of what follows it. *)
Lemma finditer_token_first (pre g1 ip fp rest : str) :
  no_bracket pre = true ->
  all_digits g1 = true -> g1 <> [] ->
  all_digits ip = true -> ip <> [] ->
  all_digits fp = true -> fp <> [] ->
  let len := (List.length g1 + List.length ip + List.length fp + 4)%nat in
  finditer (pre ++ bracketed g1 (seconds ip fp) ++ rest)
  = Match (List.length pre) (List.length pre + len) g1 (seconds ip fp)
    :: map (shift (List.length pre + len)) (finditer rest).
Proof.
  intros Hpre H1 N1 H2 N2 H3 N3 len. unfold finditer.
  rewrite (finditer_from_no_bracket pre _ Hpre). cbn [Nat.add].
  pose proof (match_here_found g1 ip fp rest H1 N1 H2 N2 H3 N3) as Hm.
  fold len in Hm.
  assert (Hlen : List.length (bracketed g1 (seconds ip fp)) = len).
  { rewrite bracketed_length. unfold seconds. rewrite length_app.
    cbn [List.length]. subst len. lia. }
  remember (bracketed g1 (seconds ip fp)) as tok eqn:Etok.
  destruct tok as [|c tok]; [discriminate Etok|].
  cbn [app finditer_from List.length] in *. rewrite Hm. f_equal.
  replace (len - 1)%nat with (List.length tok) by lia.
  rewrite finditer_from_skip.
  rewrite <- (finditer_from_shift _ rest 0 0). f_equal. lia.
Qed.

(** X14. A token found: when a line holds, after a text without opening
    bracket, a bracketed token of digits, a colon, digits, a point and
    digits, the first match of the line is this token, with its position
    and its two groups, and the other matches are those of the rest of
    the line, reported after it.  The digits are the decimal digits of
    any script. *)
Theorem finditer_finds_token (pre g1 ip fp rest : str) :
  no_bracket pre = true ->
  all_digits g1 = true -> g1 <> [] ->
  all_digits ip = true -> ip <> [] ->
  all_digits fp = true -> fp <> [] ->
  finditer (pre ++ bracketed g1 (seconds ip fp) ++ rest)
  = Match (List.length pre)
          (List.length pre
           + (List.length g1 + List.length ip + List.length fp + 4))
          g1 (seconds ip fp)
    :: map (shift (List.length pre
                   + (List.length g1 + List.length ip
                      + List.length fp + 4)))
           (finditer rest).
Proof. exact (finditer_token_first pre g1 ip fp rest). Qed.

Lemma finditer_finds_token_witness :
  no_bracket (u "la ") = true /\
  all_digits (u "1") = true /\ u "1" <> [] /\
  all_digits arabic_02 = true /\ arabic_02 <> [] /\
  all_digits (u "50") = true /\ u "50" <> [] /\
  finditer (u "la " ++ bracketed (u "1") (seconds arabic_02 (u "50"))
            ++ u "[x] [0:3.0]")
  = [Match 3 12 (u "1") (seconds arabic_02 (u "50"));
     Match 16 23 (u "0") (u "3.0")].
Proof.
  repeat (split; [reflexivity || discriminate|]).
  rewrite (finditer_finds_token (u "la ") (u "1") arabic_02 (u "50")
             (u "[x] [0:3.0]"));
    reflexivity || discriminate.
Defined.

End MatchFacts.

(** ** Records and lines of text *)

Module SplitFacts.

Import PyStr TimestampRe LyricsManager.
Import PatternFacts RecordFacts MatchFacts.

(** *** A token in front of a record *)

Lemma trailing_text_token (pre g1 ip fp rest : str) :
  no_bracket pre = true ->
  all_digits g1 = true -> g1 <> [] ->
  all_digits ip = true -> ip <> [] ->
  all_digits fp = true -> fp <> [] ->
  trailing_text (pre ++ bracketed g1 (seconds ip fp) ++ rest)
  = trailing_text rest.
Proof.
  intros Hpre H1 N1 H2 N2 H3 N3. unfold trailing_text.
  rewrite (finditer_token_first pre g1 ip fp rest Hpre H1 N1 H2 N2 H3 N3).
  set (len := (List.length g1 + List.length ip + List.length fp + 4)%nat).
  assert (Hdrop : drop (List.length pre + len)
                    (pre ++ bracketed g1 (seconds ip fp) ++ rest)
                  = rest).
  { rewrite drop_add, drop_append.
    replace len with (List.length (bracketed g1 (seconds ip fp))).
    - apply drop_append.
    - subst len. rewrite bracketed_length. unfold seconds.
      rewrite length_app. cbn [List.length]. lia. }
  destruct (finditer rest) as [|m ms] eqn:Hr.
  - cbn [map last m_end]. rewrite Hdrop. destruct rest; reflexivity.
  - change (last (?x :: map ?f (m :: ms)) ?d) with (last (map f (m :: ms)) d).
    rewrite (last_shift _ _ _ (Match 0 0 [] [])); [|discriminate].
    cbn [shift m_end]. rewrite drop_add, Hdrop. reflexivity.
Qed.

(** X15. A token in front of a record adds one line to what the record
    gives: when a line holds a well-formed token after a text without
    opening bracket, its lines are the line of this token, at its
    offset and with the trailing text of the rest, followed by the lines
    of the rest; or the lines of the rest alone when the conversion of
    the token fails. *)
Theorem record_lines_token (pre g1 ip fp rest : str) :
  no_bracket pre = true ->
  all_digits g1 = true -> g1 <> [] ->
  all_digits ip = true -> ip <> [] ->
  all_digits fp = true -> fp <> [] ->
  record_lines (pre ++ bracketed g1 (seconds ip fp) ++ rest)
  = match token_offset (Match 0 0 g1 (seconds ip fp)) with
    | Some off => (off, trailing_text rest) :: record_lines rest
    | None => record_lines rest
    end.
Proof.
  intros Hpre H1 N1 H2 N2 H3 N3. rewrite !record_lines_emit.
  rewrite (trailing_text_token pre g1 ip fp rest Hpre H1 N1 H2 N2 H3 N3).
  rewrite (finditer_token_first pre g1 ip fp rest Hpre H1 N1 H2 N2 H3 N3).
  cbn [emit]. rewrite emit_shift.
  change (token_offset (Match _ _ g1 (seconds ip fp)))
    with (token_offset (Match 0 0 g1 (seconds ip fp))).
  reflexivity.
Qed.

Lemma record_lines_token_witness :
  no_bracket [] = true /\
  all_digits (u "1") = true /\ u "1" <> [] /\
  all_digits arabic_02 = true /\ arabic_02 <> [] /\
  all_digits (u "5") = true /\ u "5" <> [] /\
  record_lines ([] ++ bracketed (u "1") (seconds arabic_02 (u "5"))
                ++ u "[0:3.0]" ++ ideographic_space :: u "la ")
  = [(PyFloat.of_decimal 625 1, u "la"); (PyFloat.lit 3, u "la")].
Proof.
  repeat (split; [reflexivity || discriminate|]).
  rewrite (record_lines_token [] (u "1") arabic_02 (u "5")
             (u "[0:3.0]" ++ ideographic_space :: u "la "));
    reflexivity || discriminate.
Defined.

(** *** Lines of text *)

Lemma splitlines_break (c : char) (b : str) :
  is_linebreak c = true -> is_cr c && starts_with_lf b = false ->
  splitlines (c :: b) = [] :: splitlines b /\
  splitlines_head (c :: b) = ([], splitlines b).
Proof.
  intros Hc Hb. cbn [splitlines splitlines_head]. rewrite Hc.
  destruct b as [|c' b]; [split; reflexivity|].
  cbn [starts_with_lf] in Hb. rewrite Hb. split; reflexivity.
Qed.

Lemma splitlines_crlf (b : str) :
  splitlines (cr :: lf :: b) = [] :: splitlines b /\
  splitlines_head (cr :: lf :: b) = ([], splitlines b).
Proof. split; reflexivity. Qed.

(** A text without line boundary in front of a line boundary is the
    first line. *)
Lemma splitlines_first (a t : str) (ls : list str) :
  no_linebreak a = true ->
  splitlines t = [] :: ls -> splitlines_head t = ([], ls) ->
  splitlines (a ++ t) = a :: ls /\ splitlines_head (a ++ t) = (a, ls).
Proof.
  intros Ha Ht Hh. induction a as [|c a IH]; [split; assumption|].
  cbn [no_linebreak forall_chars] in Ha. apply andb_prop in Ha as [Hc Ha].
  apply negb_true_iff in Hc. destruct (IH Ha) as [_ IH2].
  cbn [app splitlines splitlines_head]. rewrite Hc, IH2. split; reflexivity.
Qed.

Lemma splitlines_single (a : str) :
  no_linebreak a = true ->
  splitlines a = match a with [] => [] | _ => [a] end /\
  splitlines_head a = (a, []).
Proof.
  intros Ha. induction a as [|c a IH]; [split; reflexivity|].
  cbn [no_linebreak forall_chars] in Ha. apply andb_prop in Ha as [Hc Ha].
  apply negb_true_iff in Hc. destruct (IH Ha) as [_ IH2].
  cbn [splitlines splitlines_head]. rewrite Hc, IH2. split; reflexivity.
Qed.

(** X16. Records are parsed one by one: the lines collected from a text
    whose first line [a] ends at a line boundary (a line feed, or any
    other boundary that is not a carriage return in front of a line
    feed), or at a carriage return and a line feed, are the lines of the
    record [a] followed by the lines collected from the rest; and a text
    without line boundary is one record. *)
Theorem collected_by_record (a b : str) :
  no_linebreak a = true ->
  collected (a ++ lf :: b) = record_lines a ++ collected b /\
  (forall c : char,
     is_linebreak c = true -> is_cr c && starts_with_lf b = false ->
     collected (a ++ c :: b) = record_lines a ++ collected b) /\
  collected (a ++ cr :: lf :: b) = record_lines a ++ collected b /\
  collected a = record_lines a.
Proof.
  intros Ha. unfold collected.
  assert (Hc : forall c : char,
             is_linebreak c = true -> is_cr c && starts_with_lf b = false ->
             flat_map record_lines (splitlines (a ++ c :: b))
             = record_lines a ++ flat_map record_lines (splitlines b)).
  { intros c Hc Hb. destruct (splitlines_break c b Hc Hb) as [B1 B2].
    rewrite (proj1 (splitlines_first a _ _ Ha B1 B2)). reflexivity. }
  destruct (splitlines_crlf b) as [C1 C2].
  rewrite (proj1 (splitlines_first a _ _ Ha C1 C2)).
  rewrite (proj1 (splitlines_single a Ha)).
  split; [exact (Hc lf eq_refl eq_refl)|]. split; [exact Hc|].
  split; [reflexivity|]. destruct a; [reflexivity|]. cbn [flat_map].
  apply app_nil_r.
Qed.

Lemma collected_by_record_witness :
  no_linebreak (u "[0:01.0]one") = true /\
  is_linebreak line_separator = true /\
  is_cr line_separator && starts_with_lf (u "[0:02.0]two") = false /\
  collected (u "[0:01.0]one" ++ line_separator :: u "[0:02.0]two")
  = record_lines (u "[0:01.0]one") ++ collected (u "[0:02.0]two").
Proof.
  split; [reflexivity|]. split; [reflexivity|]. split; [reflexivity|].
  apply (collected_by_record (u "[0:01.0]one") (u "[0:02.0]two"));
    reflexivity.
Defined.

(** What holds of every character of a text holds of every character of
    each of its lines. *)
Lemma splitlines_chars (p : char -> bool) (n : nat) :
  forall s, (List.length s <= n)%nat -> forall_chars p s = true ->
  Forall (fun line => forall_chars p line = true) (splitlines s) /\
  forall_chars p (fst (splitlines_head s)) = true /\
  Forall (fun line => forall_chars p line = true) (snd (splitlines_head s)).
Proof.
  induction n as [|n IH]; intros s Hn Hs.
  - destruct s; [repeat split; constructor|simpl in Hn; lia].
  - destruct s as [|c s]; [repeat split; constructor|].
    cbn [List.length forall_chars] in Hn, Hs.
    apply andb_prop in Hs as [Hc Hs].
    cbn [splitlines splitlines_head]. destruct (is_linebreak c).
    + destruct s as [|c' s]; [repeat split; repeat constructor|].
      cbn [List.length forall_chars] in Hn, Hs.
      pose proof Hs as Hs'. apply andb_prop in Hs' as [_ Hs''].
      destruct (is_cr c && is_lf c').
      * destruct (IH s ltac:(lia) Hs'') as (H1 & _ & _).
        repeat split; try constructor; try reflexivity; exact H1.
      * destruct (IH (c' :: s) ltac:(cbn [List.length]; lia) Hs)
          as (H1 & _ & _).
        repeat split; try constructor; try reflexivity; exact H1.
    + destruct (IH s ltac:(lia) Hs) as (_ & H2 & H3).
      destruct (splitlines_head s) as [l ls]. cbn [fst snd] in *.
      repeat split; try constructor; try assumption;
        cbn [forall_chars]; rewrite Hc, H2; reflexivity.
Qed.

Lemma no_bracket_chars (s : str) :
  no_bracket s = forall_chars (fun c => negb (c =? ch "[")%N) s.
Proof. induction s as [|c s IH]; simpl; [reflexivity|]. rewrite IH. reflexivity. Qed.

Lemma finditer_no_bracket (line : str) :
  no_bracket line = true -> finditer line = [].
Proof.
  intros H. unfold finditer.
  pose proof (finditer_from_no_bracket line [] H 0) as E.
  rewrite app_nil_r in E. exact E.
Qed.

(** X17. A text without any opening bracket, on however many lines,
    gives no line: the result is the sentinel alone. *)
Theorem parse_lrc_no_bracket (text : str) :
  no_bracket text = true -> parse_lrc text = [(PyFloat.zero, no_parse_text)].
Proof.
  intros H. rewrite no_bracket_chars in H.
  destruct (splitlines_chars _ (List.length text) text (Nat.le_refl _) H)
    as (Hl & _).
  unfold parse_lrc, collected.
  induction Hl as [|line ls Hline _ IH]; [reflexivity|].
  cbn [flat_map]. unfold record_lines at 1.
  rewrite finditer_no_bracket; [exact IH|].
  rewrite no_bracket_chars. exact Hline.
Qed.

Lemma parse_lrc_no_bracket_witness :
  no_bracket (u "la la" ++ lf :: u "0:01.0] la") = true /\
  parse_lrc (u "la la" ++ lf :: u "0:01.0] la")
  = [(PyFloat.zero, no_parse_text)].
Proof.
  split; [reflexivity|].
  apply (parse_lrc_no_bracket (u "la la" ++ lf :: u "0:01.0] la")).
  reflexivity.
Defined.

End SplitFacts.

(** ** The cache in use *)

Module CacheUse.

Import LyricsManager CacheFacts.

(** X18. What was retrieved is what the cache gives back: when a call
    misses and the retrieval returns lines, with a capacity of one or
    more, the call returns these lines, and the next call for the same
    artist and title returns them again without any request or log
    entry, whatever the network would answer. *)
Theorem store_then_hit (self : manager) (artist title : string) (r : reply)
    (lyrics : list lyric_line) :
  1 <= cache_size self ->
  getitem (cache_key artist title) (cache self) = None ->
  snd (_fetch_lyrics artist title r) = Some lyrics ->
  snd (get_lyrics self artist title r) = lyrics /\
  forall r' : reply,
    snd (get_lyrics (step self (artist, title, r)) artist title r') = lyrics /\
    snd (fst (get_lyrics (step self (artist, title, r)) artist title r')) = [].
Proof.
  intros Hcap Hmiss Hf.
  pose proof (get_lyrics_store self artist title r lyrics Hmiss Hf) as Hg.
  assert (Hc : getitem (cache_key artist title)
                 (cache (step self (artist, title, r))) = Some lyrics).
  { unfold step. rewrite Hg. cbn [fst cache].
    apply getitem_after_store; assumption. }
  rewrite Hg. split; [reflexivity|]. intros r'.
  rewrite (get_lyrics_hit _ _ _ r' _ Hc). split; reflexivity.
Qed.

Lemma store_then_hit_witness :
  1 <= cache_size (init 50) /\
  getitem (cache_key "a" "x") (cache (init 50)) = None /\
  snd (_fetch_lyrics "a" "x" (Answer [Track (Some (PyStr.u "[0:01.0]la")) None]))
  = Some [(PyFloat.lit 1, PyStr.u "la")] /\
  forall r' : reply,
    snd (get_lyrics
           (step (init 50)
              ("a"%string, "x"%string,
               Answer [Track (Some (PyStr.u "[0:01.0]la")) None]))
           "a" "x" r')
    = [(PyFloat.lit 1, PyStr.u "la")].
Proof.
  assert (H1 : 1 <= cache_size (init 50)) by (simpl; lia).
  assert (H2 : getitem (cache_key "a" "x") (cache (init 50)) = None)
    by reflexivity.
  assert (H3 : snd (_fetch_lyrics "a" "x"
                      (Answer [Track (Some (PyStr.u "[0:01.0]la")) None]))
               = Some [(PyFloat.lit 1, PyStr.u "la")]) by reflexivity.
  split; [exact H1|]. split; [exact H2|]. split; [exact H3|].
  intros r'.
  exact (proj1 (proj2 (store_then_hit (init 50) "a" "x" _ _ H1 H2 H3) r')).
Defined.

Lemma step_empty (self : manager) (c : call) :
  cache_size self <= 0 -> cache self = [] -> cache (step self c) = [].
Proof.
  intros Hcap He. destruct c as [[artist title] r]. unfold step, get_lyrics.
  rewrite He. cbn [getitem].
  destruct (_fetch_lyrics artist title r) as [ev [l|]]; cbn [fst cache];
    [|exact He].
  cbn [setitem List.length popitem_first].
  destruct (Z.gtb_spec (Z.of_nat 1) (cache_size self)); [reflexivity|lia].
Qed.

(** X19. With a capacity of zero or less nothing stays in the cache:
    after any sequence of calls it is empty, so that no call is ever a
    hit and each one asks the network again. *)
Theorem no_capacity_no_cache (capacity : Z) (calls : list call) :
  capacity <= 0 ->
  cache (run (init capacity) calls) = [] /\
  forall (artist title : string) (r : reply),
    exists ev,
      snd (fst (get_lyrics (run (init capacity) calls) artist title r))
      = HttpGet (artist ++ " " ++ title)%string :: ev.
Proof.
  intros Hcap.
  assert (He : forall self, cache_size self <= 0 -> cache self = [] ->
                            cache (run self calls) = []).
  { induction calls as [|c calls IH]; intros self Hs He; [exact He|].
    unfold run. cbn [fold_left]. apply IH.
    - rewrite cache_size_step. exact Hs.
    - apply step_empty; assumption. }
  specialize (He (init capacity) Hcap eq_refl). split; [exact He|].
  intros artist title r.
  assert (Hq : fst (_fetch_lyrics artist title r)
               = HttpGet (artist ++ " " ++ title)%string
                 :: tl (fst (_fetch_lyrics artist title r))).
  { unfold _fetch_lyrics. destruct r as [| | |[|[synced plain|] data]];
      try reflexivity.
    destruct (PyStr.startswith _ _); reflexivity. }
  unfold get_lyrics. rewrite He. cbn [getitem].
  destruct (_fetch_lyrics artist title r) as [ev [l|]]; cbn [fst snd] in *;
    rewrite Hq; eexists; reflexivity.
Qed.

Lemma no_capacity_no_cache_witness :
  0 <= 0 /\ cache (run (init 0) [song_a; song_a; song_b]) = [].
Proof.
  split; [lia|].
  exact (proj1 (no_capacity_no_cache 0 [song_a; song_a; song_b] ltac:(lia))).
Defined.

(** *** What every reachable cache satisfies *)

Lemma parse_lrc_nonempty (text : PyStr.str) : parse_lrc text <> [].
Proof.
  unfold parse_lrc. destruct (collected text) as [|x l] eqn:Hc; [discriminate|].
  intros H. apply SortFacts.sorted_nil in H. discriminate.
Qed.

Lemma fetch_nonempty (artist title : string) (r : reply)
    (lyrics : list lyric_line) :
  snd (_fetch_lyrics artist title r) = Some lyrics -> lyrics <> [].
Proof.
  unfold _fetch_lyrics. destruct r as [| | |[|[synced plain|] data]];
    cbn [snd]; try (intros [= <-]; discriminate); try discriminate.
  destruct (PyStr.startswith _ _); cbn [snd]; intros [= <-];
    apply parse_lrc_nonempty.
Qed.

Lemma getitem_In (k : string) (d : ordered_dict) (v : list lyric_line) :
  getitem k d = Some v -> In (k, v) d.
Proof.
  induction d as [|[k' w] d IH]; simpl; [discriminate|].
  destruct (String.eqb_spec k k') as [->|_].
  - intros [= ->]. left. reflexivity.
  - intros H. right. exact (IH H).
Qed.

Lemma delitem_sub (k : string) (d : ordered_dict) (e : string * list lyric_line) :
  In e (delitem k d) -> In e d.
Proof.
  induction d as [|[k' w] d IH]; simpl; [tauto|].
  destruct (String.eqb k k'); simpl; tauto.
Qed.

Lemma no_empty_entry_step (self : manager) (c : call) :
  no_empty_entry (cache self) -> no_empty_entry (cache (step self c)).
Proof.
  unfold no_empty_entry. intros Hn. destruct c as [[artist title] r].
  unfold step.
  destruct (getitem (cache_key artist title) (cache self)) as [v|] eqn:Hg.
  - rewrite (get_lyrics_hit _ _ _ r _ Hg). cbn [fst cache].
    rewrite Forall_forall in *. intros e He.
    apply in_app_or in He as [He|[<-|[]]].
    + apply Hn. exact (delitem_sub _ _ _ He).
    + apply (Hn _ (getitem_In _ _ _ Hg)).
  - destruct (snd (_fetch_lyrics artist title r)) as [lyrics|] eqn:Hf.
    + rewrite (get_lyrics_store _ _ _ r _ Hg Hf). cbn [fst cache].
      assert (Ha : Forall (fun e => snd e <> [])
                     (cache self ++ [(cache_key artist title, lyrics)])).
      { apply Forall_app. split; [exact Hn|]. repeat constructor.
        exact (fetch_nonempty _ _ _ _ Hf). }
      destruct (_ >? _); [|exact Ha].
      destruct (cache self ++ [(cache_key artist title, lyrics)]);
        [constructor|]. inversion Ha; assumption.
    + rewrite (proj1 (get_lyrics_raise _ _ _ r Hg Hf)). exact Hn.
Qed.

Lemma no_empty_entry_run (calls : list call) :
  forall self, no_empty_entry (cache self) ->
               no_empty_entry (cache (run self calls)).
Proof.
  induction calls as [|c calls IH]; intros self H; [exact H|].
  unfold run. cbn [fold_left]. apply IH, no_empty_entry_step, H.
Qed.

Lemma run_empty (calls : list call) :
  forall self, cache_size self <= 0 -> cache self = [] ->
               cache (run self calls) = [].
Proof.
  induction calls as [|c calls IH]; intros self Hs He; [exact He|].
  unfold run. cbn [fold_left]. apply IH.
  - rewrite cache_size_step. exact Hs.
  - apply step_empty; assumption.
Qed.

(** X20. After any sequence of calls, on a cache of any capacity, the
    keys of the cache are distinct, no entry holds an empty sequence, and
    whatever is asked next, [get_lyrics] returns a sequence that is not
    empty. *)
Theorem cache_well_formed (capacity : Z) (calls : list call) :
  NoDup (keys (cache (run (init capacity) calls))) /\
  no_empty_entry (cache (run (init capacity) calls)) /\
  forall (artist title : string) (r : reply),
    snd (get_lyrics (run (init capacity) calls) artist title r) <> [].
Proof.
  assert (Hn : no_empty_entry (cache (run (init capacity) calls)))
    by (apply no_empty_entry_run; constructor).
  split; [|split; [exact Hn|]].
  - destruct (Z.le_gt_cases capacity 0) as [Hle|Hgt].
    + rewrite (run_empty calls (init capacity) Hle eq_refl). constructor.
    + exact (proj1 (cache_inv_run calls [] (init capacity)
                      (cache_inv_init capacity ltac:(lia)))).
  - intros artist title r.
    destruct (getitem (cache_key artist title)
                (cache (run (init capacity) calls))) as [v|] eqn:Hg.
    + rewrite (get_lyrics_hit _ _ _ r _ Hg). cbn [snd].
      unfold no_empty_entry in Hn. rewrite Forall_forall in Hn.
      exact (Hn _ (getitem_In _ _ _ Hg)).
    + destruct (snd (_fetch_lyrics artist title r)) as [lyrics|] eqn:Hf.
      * rewrite (get_lyrics_store _ _ _ r _ Hg Hf). cbn [snd].
        exact (fetch_nonempty _ _ _ _ Hf).
      * rewrite (proj2 (get_lyrics_raise _ _ _ r Hg Hf)). discriminate.
Qed.

End CacheUse.

(** ** The loop *)

Module LoopFacts.

Import LyricsManager RunLyrics.

Lemma tick_lines (st : loop_state) (a : answers) :
  lyrics_lines st <> [] -> lyrics_lines (tick_state st a) <> [].
Proof.
  intros H. unfold tick_state, tick.
  destruct (truthy (ans_artist a)) as [artist|]; [|exact H].
  destruct (truthy (ans_title a)) as [title|]; [|exact H].
  destruct (match last_track st with
            | Some k => negb (String.eqb (cache_key artist title) k)
            | None => true
            end); [|exact H].
  destruct (get_lyrics (lyrics_mgr st) artist title (ans_reply a))
    as [[mgr ev] [|x l]]; cbn; [exact H|discriminate].
Qed.

Lemma run_ticks_lines (answers : list answers) :
  forall st, lyrics_lines st <> [] -> lyrics_lines (run_ticks st answers) <> [].
Proof.
  induction answers as [|a answers IH]; intros st H; [exact H|].
  unfold run_ticks. cbn [fold_left]. apply IH, tick_lines, H.
Qed.

Lemma tick_panel_lines (st : loop_state) (a : answers) (p : panel) :
  tick_panel st a = Some p ->
  exists artist title,
    p = render_panel (lyrics_lines (tick_state st a)) (ans_position a)
          artist title (window_size st).
Proof.
  unfold tick_panel, tick_state, tick.
  destruct (truthy (ans_artist a)) as [artist|]; [|discriminate].
  destruct (truthy (ans_title a)) as [title|]; [|discriminate].
  destruct (match last_track st with
            | Some k => negb (String.eqb (cache_key artist title) k)
            | None => true
            end).
  - destruct (get_lyrics (lyrics_mgr st) artist title (ans_reply a))
      as [[mgr ev] lines]. cbn.
    intros [= <-]. exists artist, title. reflexivity.
  - cbn. intros [= <-]. exists artist, title. reflexivity.
Qed.

(** X21. From its start on, whatever the player and the network answer,
    the loop never holds an empty sequence of lines; every panel it shows
    renders the lines it holds after the tick, and the active index of
    the panel is an index of these lines. *)
Theorem loop_lines_never_empty (player : string) (window capacity : Z)
    (history : list answers) (a : answers) :
  let st := run_ticks (start player window capacity) history in
  lyrics_lines st <> [] /\
  lyrics_lines (tick_state st a) <> [] /\
  forall p : panel,
    tick_panel st a = Some p ->
    0 <= panel_idx p < Z.of_nat (List.length (lyrics_lines (tick_state st a))).
Proof.
  cbv zeta.
  assert (H : lyrics_lines (run_ticks (start player window capacity) history) <> [])
    by (apply run_ticks_lines; discriminate).
  split; [exact H|]. split; [apply tick_lines, H|].
  intros p Hp. apply tick_panel_lines in Hp as (artist & title & ->).
  pose proof (tick_lines _ a H) as Hne.
  generalize dependent (lyrics_lines
    (tick_state (run_ticks (start player window capacity) history) a)).
  intros lines Hne. unfold render_panel.
  destruct (WindowManager.get_indices _ _ _) as [s e]. cbn [panel_idx].
  unfold active_index.
  destruct (first_active 0 lines (ans_position a)) as [j|] eqn:Hf.
  - apply LocatorFacts.first_active_Some in Hf as (k & -> & Hk & _). lia.
  - destruct lines; [congruence|]. simpl List.length. lia.
Qed.

Lemma loop_lines_never_empty_witness :
  exists p : panel,
    tick_panel (run_ticks (start "mpv" 10 50) [song_answers]) song_answers
    = Some p /\
    0 <= panel_idx p
    < Z.of_nat (List.length
                  (lyrics_lines
                     (tick_state (run_ticks (start "mpv" 10 50) [song_answers])
                        song_answers))).
Proof.
  eexists. split; [reflexivity|].
  apply (loop_lines_never_empty "mpv" 10 50 [song_answers] song_answers).
  reflexivity.
Defined.

Lemma fetch_requests (artist title : string) (r : reply) :
  requests (fst (_fetch_lyrics artist title r)) = [(artist ++ " " ++ title)%string].
Proof.
  unfold _fetch_lyrics. destruct r as [| | |[|[synced plain|] data]];
    try reflexivity.
  destruct (PyStr.startswith _ _); reflexivity.
Qed.

Lemma requests_app (ev ev' : list event) :
  requests (ev ++ ev') = requests ev ++ requests ev'.
Proof. unfold requests. apply flat_map_app. Qed.

Lemma get_lyrics_requests (self : manager) (artist title : string) (r : reply) :
  requests (snd (fst (get_lyrics self artist title r)))
  = match getitem (cache_key artist title) (cache self) with
    | Some _ => []
    | None => [(artist ++ " " ++ title)%string]
    end.
Proof.
  unfold get_lyrics.
  destruct (getitem (cache_key artist title) (cache self)); [reflexivity|].
  pose proof (fetch_requests artist title r) as Hq.
  destruct (_fetch_lyrics artist title r) as [ev [l|]]; cbn [fst snd] in *;
    [exact Hq|].
  rewrite requests_app, Hq. reflexivity.
Qed.

(** X22. A tick sends at most one request.  It sends one exactly when the
    player names an artist and a title, the song is not the one of the
    tick before, and its key is not in the cache; the request then asks
    for the artist and the title, separated by a space. *)
Theorem tick_requests (st : loop_state) (a : answers) :
  requests (tick_events st a)
  = match truthy (ans_artist a), truthy (ans_title a) with
    | Some artist, Some title =>
        if match last_track st with
           | Some k => String.eqb (cache_key artist title) k
           | None => false
           end
        then []
        else match getitem (cache_key artist title) (cache (lyrics_mgr st)) with
             | Some _ => []
             | None => [(artist ++ " " ++ title)%string]
             end
    | _, _ => []
    end.
Proof.
  unfold tick_events, tick.
  destruct (truthy (ans_artist a)) as [artist|]; [|reflexivity].
  destruct (truthy (ans_title a)) as [title|]; [|reflexivity].
  pose proof (get_lyrics_requests (lyrics_mgr st) artist title (ans_reply a))
    as Hq.
  destruct (get_lyrics (lyrics_mgr st) artist title (ans_reply a))
    as [[mgr ev] lines]. cbn [fst snd] in Hq.
  destruct (last_track st) as [k|];
    [destruct (String.eqb (cache_key artist title) k)|]; cbn; try reflexivity;
    exact Hq.
Qed.

End LoopFacts.

(** ** The choice of the player *)

Module PlayerFacts.

Lemma first_playing_Some (ps : list (string * probe)) (p : string) :
  first_playing ps = Some p ->
  exists pre pos post,
    ps = pre ++ (p, ProbePosition pos) :: post /\
    PyFloat.le PyFloat.zero pos = true /\ Forall not_playing pre.
Proof.
  induction ps as [|[q pr] ps IH]; [discriminate|]. cbn [first_playing].
  assert (Hskip : not_playing (q, pr) -> first_playing ps = Some p ->
            exists pre pos post,
              (q, pr) :: ps = pre ++ (p, ProbePosition pos) :: post /\
              PyFloat.le PyFloat.zero pos = true /\ Forall not_playing pre).
  { intros Hq H. destruct (IH H) as (pre & pos & post & -> & Hpos & Hpre).
    exists ((q, pr) :: pre), pos, post. repeat split; [exact Hpos|].
    constructor; assumption. }
  destruct pr as [| |pos]; try (apply Hskip; exact I).
  destruct (PyFloat.le PyFloat.zero pos) eqn:Hpos.
  - intros [= ->]. exists [], pos, ps. repeat split; [exact Hpos|constructor].
  - apply Hskip. exact Hpos.
Qed.

Lemma first_playing_None (ps : list (string * probe)) :
  first_playing ps = None <-> Forall not_playing ps.
Proof.
  induction ps as [|[q pr] ps IH]; [split; [constructor|reflexivity]|].
  cbn [first_playing]. destruct pr as [| |pos].
  - rewrite IH. split; [intros H; constructor; [exact I|exact H]|].
    intros H. inversion H; assumption.
  - rewrite IH. split; [intros H; constructor; [exact I|exact H]|].
    intros H. inversion H; assumption.
  - destruct (PyFloat.le PyFloat.zero pos) eqn:Hpos.
    + split; [discriminate|]. intros H. inversion H as [|? ? Hq _]; subst.
      unfold not_playing in Hq. cbn in Hq. congruence.
    + rewrite IH. split; [intros H; constructor; [exact Hpos|exact H]|].
      intros H. inversion H; assumption.
Qed.

(** X23. The player chosen: a name given on the command line that is not
    empty is chosen whatever the system runs; without one, the player
    chosen is the first of the list whose position is a number at or
    after zero, none being chosen when the list cannot be read or when no
    player of the list shows such a position. *)
Theorem choose_player_first :
  (forall (p : string) (env : players),
     p <> EmptyString -> choose_player (Some p) env = Some p) /\
  (forall (forced : option string) (ps : list (string * probe)) (p : string),
     LyricsManager.truthy forced = None ->
     choose_player forced (Some ps) = Some p ->
     exists pre pos post,
       ps = pre ++ (p, ProbePosition pos) :: post /\
       PyFloat.le PyFloat.zero pos = true /\ Forall not_playing pre) /\
  (forall (forced : option string) (ps : list (string * probe)),
     LyricsManager.truthy forced = None ->
     (choose_player forced (Some ps) = None <-> Forall not_playing ps)) /\
  (forall forced : option string,
     LyricsManager.truthy forced = None -> choose_player forced None = None).
Proof.
  unfold choose_player. repeat split.
  - intros p env Hp. destruct p; [congruence|reflexivity].
  - intros forced ps p ->. apply first_playing_Some.
  - rewrite H. apply first_playing_None.
  - rewrite H. apply first_playing_None.
  - intros forced ->. reflexivity.
Qed.

Lemma choose_player_first_witness :
  "mpv"%string <> EmptyString /\
  choose_player (Some "mpv"%string) None = Some "mpv"%string /\
  choose_player None
    (Some [("vlc", ProbeRaises); ("mpd", ProbePosition (PyFloat.lit (-1)));
           ("mpv", ProbePosition (PyFloat.lit 5))]%string)
  = Some "mpv"%string.
Proof.
  assert (H : "mpv"%string <> EmptyString) by discriminate.
  split; [exact H|].
  split; [exact (proj1 choose_player_first "mpv"%string None H)|reflexivity].
Defined.

End PlayerFacts.

(** ** The sort, again *)

Module SortUnique.

Import PyFloat PyFloatFacts LyricsManager SortFacts.

Lemma eq_refl_not_nan (f : float) : is_nan f = false -> eq f f = true.
Proof. intros H. apply le_antisym; apply le_refl; exact H. Qed.

Lemma at_offset_In (o : float) (x : lyric_line) (l : list lyric_line) :
  In x (at_offset o l) <-> In x l /\ eq (fst x) o = true.
Proof. unfold at_offset. apply filter_In. Qed.

Lemma at_offset_cons (o : float) (x : lyric_line) (l : list lyric_line) :
  at_offset o (x :: l)
  = if eq (fst x) o then x :: at_offset o l else at_offset o l.
Proof. reflexivity. Qed.

(** Two sorted sequences that hold the same lines in the same order at
    every offset are the same sequence. *)
Lemma sorted_stable_unique (l1 : list lyric_line) :
  forall l2,
    Forall not_nan l1 -> Forall not_nan l2 ->
    StronglySorted offset_le l1 -> StronglySorted offset_le l2 ->
    (forall o, at_offset o l1 = at_offset o l2) -> l1 = l2.
Proof.
  induction l1 as [|x l1 IH]; intros l2 N1 N2 S1 S2 H.
  - destruct l2 as [|y l2]; [reflexivity|exfalso].
    inversion N2 as [|? ? Ny _]; subst.
    specialize (H (fst y)). rewrite at_offset_cons in H.
    rewrite (eq_refl_not_nan _ Ny) in H. discriminate.
  - inversion N1 as [|? ? Nx N1']; subst.
    inversion S1 as [|? ? S1' Hx]; subst.
    destruct l2 as [|y l2].
    { exfalso. specialize (H (fst x)). rewrite at_offset_cons in H.
      rewrite (eq_refl_not_nan _ Nx) in H. discriminate. }
    inversion N2 as [|? ? Ny N2']; subst.
    inversion S2 as [|? ? S2' Hy]; subst.
    assert (Hxy : x = y).
    { pose proof (H (fst x)) as Hfx. pose proof (H (fst y)) as Hfy.
      rewrite !at_offset_cons in Hfx, Hfy.
      rewrite (eq_refl_not_nan _ Nx) in Hfx.
      rewrite (eq_refl_not_nan _ Ny) in Hfy.
      destruct (eq (fst y) (fst x)) eqn:Eyx; [congruence|].
      destruct (eq (fst x) (fst y)) eqn:Exy; [congruence|]. exfalso.
      assert (Hx2 : In x l2).
      { apply (at_offset_In (fst x)). rewrite <- Hfx. left. reflexivity. }
      assert (Hy1 : In y l1).
      { apply (at_offset_In (fst y)). rewrite Hfy. left. reflexivity. }
      rewrite Forall_forall in Hx, Hy.
      pose proof (le_antisym _ _ (Hx y Hy1) (Hy x Hx2)). congruence. }
    subst y. f_equal. apply IH; try assumption.
    intros o. specialize (H o). rewrite !at_offset_cons in H.
    destruct (eq (fst x) o); congruence.
Qed.

(** X24. The result does not depend on how the sort proceeds: when lines
    were collected, any arrangement of them that is sorted by offset and
    keeps the lines of each offset in their collected order is the
    result of [parse_lrc]. *)
Theorem parse_lrc_unique (text : PyStr.str) (l : list lyric_line) :
  collected text <> [] ->
  Permutation (collected text) l ->
  StronglySorted offset_le l ->
  (forall o, at_offset o l = at_offset o (collected text)) ->
  l = parse_lrc text.
Proof.
  intros Hne Hp Hs Hst. pose proof (ParserFacts.collected_not_nan text) as Hn.
  unfold parse_lrc. destruct (collected text) as [|x c] eqn:Hc; [congruence|].
  apply sorted_stable_unique.
  - exact (Permutation_Forall Hp Hn).
  - exact (Permutation_Forall (sorted_perm (x :: c)) Hn).
  - exact Hs.
  - apply sorted_sorted, Hn.
  - intros o. rewrite Hst, sorted_at_offset. reflexivity.
Qed.

Lemma parse_lrc_unique_witness :
  collected tied_records <> [] /\
  [(of_decimal 15 1, PyStr.u "early"); (lit 2, PyStr.u "first");
   (lit 2, PyStr.u "second")] = parse_lrc tied_records.
Proof.
  assert (H : collected tied_records <> []) by (vm_compute; discriminate).
  split; [exact H|].
  apply (parse_lrc_unique tied_records); [exact H| | |].
  - change (collected tied_records)
      with [(lit 2, PyStr.u "first"); (lit 2, PyStr.u "second");
            (of_decimal 15 1, PyStr.u "early")].
    apply Permutation_sym, (Permutation_cons_app [_; _] []). reflexivity.
  - repeat constructor.
  - intros o. change (collected tied_records)
      with [(lit 2, PyStr.u "first"); (lit 2, PyStr.u "second");
            (of_decimal 15 1, PyStr.u "early")].
    unfold at_offset. cbn [filter fst].
    destruct (eq (of_decimal 15 1) o) eqn:E1, (eq (lit 2) o) eqn:E2;
      try reflexivity.
    pose proof (eq_not_lt _ _ _ E2 E1) as Hlt. vm_compute in Hlt.
    discriminate Hlt.
Defined.

End SortUnique.

(** ** The order of the cache *)

Module RecencyFacts.

Import LyricsManager CacheFacts CacheUse.

Lemma used_present (self : manager) (c : call) (k : string) :
  1 <= cache_size self -> used self c = Some k ->
  getitem k (cache (step self c)) <> None.
Proof.
  intros Hcap. destruct c as [[artist title] r]. unfold used, step, call_key.
  destruct (getitem (cache_key artist title) (cache self)) as [v|] eqn:Hg.
  - intros [= <-]. rewrite (get_lyrics_hit _ _ _ r _ Hg). cbn [fst cache].
    destruct (in_dec string_dec (cache_key artist title)
                (keys (delitem (cache_key artist title) (cache self))))
      as [Hin|Hout].
    + intros Hnone. apply getitem_None in Hnone. apply Hnone.
      rewrite keys_app. apply in_or_app. left. exact Hin.
    + rewrite (getitem_last _ _ _ Hout). discriminate.
  - destruct (snd (_fetch_lyrics artist title r)) as [lyrics|] eqn:Hf;
      [|discriminate].
    intros [= <-]. rewrite (get_lyrics_store _ _ _ r _ Hg Hf). cbn [fst cache].
    rewrite (getitem_after_store _ _ _ _ Hcap Hg). discriminate.
Qed.

Lemma unused_unchanged (self : manager) (c : call) :
  used self c = None -> step self c = self.
Proof.
  destruct c as [[artist title] r]. unfold used, step, call_key.
  destruct (getitem (cache_key artist title) (cache self)) eqn:Hg;
    [discriminate|].
  destruct (snd (_fetch_lyrics artist title r)) eqn:Hf; [discriminate|].
  intros _. exact (proj1 (get_lyrics_raise _ _ _ r Hg Hf)).
Qed.

Lemma last_used_present (calls : list call) :
  forall (h : list string) (self : manager),
    1 <= cache_size self ->
    (forall k h', h = k :: h' -> getitem k (cache self) <> None) ->
    forall k h', history h self calls = k :: h' ->
                 getitem k (cache (run self calls)) <> None.
Proof.
  induction calls as [|c calls IH]; intros h self Hcap Hh k h' Hk;
    [exact (Hh k h' Hk)|].
  cbn [history] in Hk. unfold run. cbn [fold_left].
  apply (IH _ (step self c)) in Hk; [exact Hk| |].
  - rewrite cache_size_step. exact Hcap.
  - destruct (used self c) as [u|] eqn:Hu.
    + intros k0 h0 [= <- _]. exact (used_present self c u Hcap Hu).
    + rewrite (unused_unchanged self c Hu). exact Hh.
Qed.

(** X25. The cache is kept in the order of use.  After any sequence of
    calls, on a cache of any capacity, every key of the cache has been
    used, and of two entries the one nearer to the front was last used
    before the other; with a capacity of one or more, the key used last
    is in the cache. *)
Theorem cache_order_is_recency (capacity : Z) (calls : list call) :
  let self := run (init capacity) calls in
  let h := history [] (init capacity) calls in
  StronglySorted (older h) (keys (cache self)) /\
  Forall (fun k => In k h) (keys (cache self)) /\
  (1 <= capacity ->
   forall k h', h = k :: h' -> getitem k (cache self) <> None).
Proof.
  cbv zeta. split; [|split].
  - destruct (Z.le_gt_cases capacity 0) as [Hle|Hgt].
    + rewrite (run_empty calls (init capacity) Hle eq_refl). constructor.
    + exact (proj1 (proj2 (cache_inv_run calls [] (init capacity)
                             (cache_inv_init capacity ltac:(lia))))).
  - destruct (Z.le_gt_cases capacity 0) as [Hle|Hgt].
    + rewrite (run_empty calls (init capacity) Hle eq_refl). constructor.
    + exact (proj1 (proj2 (proj2 (cache_inv_run calls [] (init capacity)
                             (cache_inv_init capacity ltac:(lia)))))).
  - intros Hcap k h' Hk.
    apply (last_used_present calls [] (init capacity) Hcap) with (h' := h');
      [|exact Hk].
    intros k0 h0 H0. discriminate H0.
Qed.

Lemma cache_order_is_recency_witness :
  1 <= 2 /\
  history [] (init 2) [song_a; song_b; song_a; song_c]
  = [call_key song_c; call_key song_a; call_key song_b; call_key song_a] /\
  keys (cache (run (init 2) [song_a; song_b; song_a; song_c]))
  = [call_key song_a; call_key song_c] /\
  getitem (call_key song_c)
          (cache (run (init 2) [song_a; song_b; song_a; song_c])) <> None.
Proof.
  assert (H : 1 <= 2) by lia.
  split; [exact H|]. split; [reflexivity|]. split; [reflexivity|].
  destruct (cache_order_is_recency 2 [song_a; song_b; song_a; song_c])
    as (_ & _ & Hlast).
  exact (Hlast H (call_key song_c)
           [call_key song_a; call_key song_b; call_key song_a] eq_refl).
Defined.

End RecencyFacts.

(** ** Texts of one line *)

Module SingleLine.

Import PyStr TimestampRe LyricsManager.

(** No line of [splitlines] holds a line boundary. *)
Lemma splitlines_no_break (n : nat) :
  forall s, (List.length s <= n)%nat ->
  Forall (fun line => no_linebreak line = true) (splitlines s) /\
  no_linebreak (fst (splitlines_head s)) = true /\
  Forall (fun line => no_linebreak line = true) (snd (splitlines_head s)).
Proof.
  induction n as [|n IH]; intros s Hn.
  - destruct s; [repeat split; constructor|simpl in Hn; lia].
  - destruct s as [|c s]; [repeat split; constructor|].
    cbn [List.length] in Hn.
    cbn [splitlines splitlines_head]. destruct (is_linebreak c) eqn:Hc.
    + destruct s as [|c' s]; [repeat split; repeat constructor|].
      cbn [List.length] in Hn.
      destruct (is_cr c && is_lf c').
      * destruct (IH s ltac:(lia)) as (H1 & _ & _).
        repeat split; try constructor; try reflexivity; exact H1.
      * destruct (IH (c' :: s) ltac:(cbn [List.length]; lia))
          as (H1 & _ & _).
        repeat split; try constructor; try reflexivity; exact H1.
    + destruct (IH s ltac:(lia)) as (_ & H2 & H3).
      destruct (splitlines_head s) as [l ls]. cbn [fst snd] in *.
      assert (Hl : no_linebreak (c :: l) = true).
      { unfold no_linebreak in *. cbn [forall_chars]. rewrite Hc, H2.
        reflexivity. }
      repeat split; try constructor; assumption.
Qed.

Lemma forall_chars_drop (p : char -> bool) (n : nat) :
  forall s, forall_chars p s = true -> forall_chars p (drop n s) = true.
Proof.
  induction n as [|n IH]; intros s H; [destruct s; exact H|].
  destruct s as [|c s]; [exact H|]. cbn [drop].
  cbn [forall_chars] in H. apply andb_prop in H as [_ H]. exact (IH s H).
Qed.

Lemma forall_chars_lstrip (p : char -> bool) (s : str) :
  forall_chars p s = true -> forall_chars p (lstrip s) = true.
Proof.
  induction s as [|c s IH]; intros H; [exact H|]. cbn [lstrip].
  destruct (is_space c); [|exact H].
  cbn [forall_chars] in H. apply andb_prop in H as [_ H]. exact (IH H).
Qed.

Lemma forall_chars_rstrip (p : char -> bool) (s : str) :
  forall_chars p s = true -> forall_chars p (rstrip s) = true.
Proof.
  induction s as [|c s IH]; intros H; [exact H|]. cbn [rstrip].
  cbn [forall_chars] in H. apply andb_prop in H as [Hc H].
  specialize (IH H). destruct (rstrip s) as [|c' r].
  - destruct (is_space c); [reflexivity|]. cbn [forall_chars].
    rewrite Hc. reflexivity.
  - cbn [forall_chars] in *. rewrite Hc, IH. reflexivity.
Qed.

(** X26. No text of the result holds a line boundary: each is the text
    of one line. *)
Theorem parse_lrc_texts_single_line (text : str) :
  Forall (fun ln => no_linebreak (snd ln) = true) (parse_lrc text).
Proof.
  apply LineFacts.parse_lrc_Forall; [reflexivity|].
  intros line m off Hline _ _. cbn [snd]. unfold trailing_text, strip.
  apply forall_chars_rstrip, forall_chars_lstrip, forall_chars_drop.
  destruct (splitlines_no_break (List.length text) text (Nat.le_refl _))
    as (H & _).
  rewrite Forall_forall in H. exact (H line Hline).
Qed.

End SingleLine.
